(** * The 100 Prisoners Riddle: a shallow embedding of [Source.cpp]

    The simulation draws a permutation of the boxes, lets every prisoner
    search it twice (once in a random order, once by following the chain
    that starts at the prisoner's own box) and counts the trials in which
    the whole group succeeds.  The development below embeds the functions
    of [Source.cpp] and proves what the specification says about them.

    Conventions of the embedding:
    - unsigned integers are [Z], the wrap-around of an increment is written
      out ([uint32], [uint64]);
    - a [std::vector<uint16_t>] and the [uint64_t] array [won] are [list Z],
      read by index with an explicit out-of-range result;
    - the buffer behind the pointer [uint16_t* boxes] is threaded through
      the two strategy functions as the state of a small monad, together
      with a record of the boxes that are opened, so that what the
      functions leave in the buffer and which boxes they look into are
      statements about the code and not about the shape of a definition;
    - a counted [for] loop is a [Fixpoint] on its trip count, which carries
      the loop variables of the source as arguments;
    - the C++ standard library ([std::mt19937_64], [std::shuffle]) is an
      interface, a type class, of which the theorems assume only the
      contract the C++ standard gives. *)

From stdpp Require Import base tactics numbers option list.

Local Open Scope Z_scope.

(** ** Compile-time constants *)

(** [USE_MULTI_THREADING], [NUM_ITERATIONS] and [NUM_PRISONERS] are the three
    tunable constants at the head of the source. *)
Class Config := {
  USE_MULTI_THREADING : bool;
  NUM_ITERATIONS : Z;
  NUM_PRISONERS : Z
}.

(** The values the source is compiled with. *)
Definition source_config : Config :=
  {| USE_MULTI_THREADING := true;
     NUM_ITERATIONS := 1000000;
     NUM_PRISONERS := 100 |}.

Definition NUM_BOXES `{Config} : Z := NUM_PRISONERS.
Definition MAX_BOXES_TO_OPEN `{Config} : Z := NUM_PRISONERS / 2.

(** ** Machine integers *)

Definition uint32 (x : Z) : Z := x mod 2 ^ 32.
Definition uint64 (x : Z) : Z := x mod 2 ^ 64.

(** ** Arrays *)

(** [buf[i]] for a buffer of known extent; [None] is a read outside it. *)
Definition read (buf : list Z) (i : Z) : option Z :=
  if decide (0 ≤ i) then buf !! Z.to_nat i else None.

(** The vector [0, 1, ..., n-1] both [Run] and [RunRandom] start from. *)
Definition iota (n : Z) : list Z := seqZ 0 n.

(** ** Computations over the [boxes] buffer *)

(** The buffer [boxes] points to, and next to it the record of the boxes
    that have been opened: every read [boxes[pos]] adds [pos] at its end.
    The record is not a variable of the program; it is there so that what
    the specification says about the boxes a prisoner opens can be
    stated. *)
Definition buffer : Type := list Z * list Z.

(** A computation that may read and write the buffer and may go wrong by
    an access outside it. *)
Definition M (A : Type) : Type := buffer → option (A * buffer).

Definition ret {A} (a : A) : M A := λ buf, Some (a, buf).

Definition bind {A B} (c : M A) (k : A → M B) : M B :=
  λ buf, match c buf with
         | Some (a, buf') => k a buf'
         | None => None
         end.

Notation "x <~ c ;; k" := (bind c (λ x, k))
  (at level 100, c at next level, right associativity).

(** [boxes[pos]] *)
Definition load (pos : Z) : M Z :=
  λ '(boxes, opened),
    match read boxes pos with
    | Some v => Some (v, (boxes, opened ++ [pos]))
    | None => None
    end.

(** An access to a local vector inside a computation over [boxes]. *)
Definition lift {A} (o : option A) : M A :=
  λ buf, match o with
         | Some a => Some (a, buf)
         | None => None
         end.

(** A call with the pointer [boxes.data()]: the computation on the vector
    [boxes], its result and the vector afterwards. *)
Definition call_on {A} (c : M A) (boxes : list Z) : option (A * list Z) :=
  match c (boxes, []) with
  | Some (a, (boxes', _)) => Some (a, boxes')
  | None => None
  end.

(** ** [RunMethod] *)

Section RunMethod.
Context `{Config}.

(** The inner loop [for (; i < MAX_BOXES_TO_OPEN; i++)]: [n] iterations
    remain, [pos], [i] and [succeed] are the variables of the source.  The
    result is their value when the loop is left. *)
Fixpoint RunMethod_for (prisoner : Z) (n : nat) (pos i succeed : Z)
  : M (Z * Z * Z) :=
  match n with
  | O => ret (pos, i, succeed)
  | S n' =>
      b <~ load pos ;;
      if decide (b = prisoner)
      then ret (pos, MAX_BOXES_TO_OPEN + 1, uint32 (succeed + 1))
      else pos' <~ load pos ;;
           RunMethod_for prisoner n' pos' (i + 1) succeed
  end.

(** What the body of the outer loop does for one prisoner. *)
Definition RunMethod_prisoner (prisoner succeed : Z) : M (Z * Z * Z) :=
  RunMethod_for prisoner (Z.to_nat MAX_BOXES_TO_OPEN) prisoner 0 succeed.

(** The outer loop over the prisoners, with its early [return]. *)
Fixpoint RunMethod_loop (n : nat) (prisoner succeed : Z) : M Z :=
  match n with
  | O => ret succeed
  | S n' =>
      r <~ RunMethod_prisoner prisoner succeed ;;
      let '(_, i, succeed') := r in
      if decide (i ≠ MAX_BOXES_TO_OPEN + 1)
      then ret succeed'
      else RunMethod_loop n' (prisoner + 1) succeed'
  end.

Definition RunMethod (succeed : Z) : M Z :=
  RunMethod_loop (Z.to_nat NUM_PRISONERS) 0 succeed.
End RunMethod.

(** ** The C++ standard library *)

(** [std::mt19937_64] and [std::shuffle] are not code of the program.  They
    are an interface: a type of generator states, the constructor from a
    seed, and [std::shuffle(first, last, rng)] on a [uint16_t] vector, which
    returns the rearranged vector and the generator it leaves behind. *)
Class StdRandom := {
  mt19937_64 : Type;
  mt19937_64_seed : Z → mt19937_64;
  shuffle : list Z → mt19937_64 → list Z * mt19937_64
}.

(** The contract of [std::shuffle]: the elements are rearranged, none is
    lost, added or changed. *)
Class StdRandomSpec `{StdRandom} : Prop :=
  shuffle_Permutation : ∀ v rng, (shuffle v rng).1 ≡ₚ v.

(** ** [RandomiseBoxes], [RunRandom], [Run] *)

(** [won[idx]++] on the [uint64_t] array. *)
Definition incr (won : list Z) (idx : Z) : option (list Z) :=
  v ← read won idx; Some (<[Z.to_nat idx := uint64 (v + 1)]> won).

Section Run.
Context `{Config} `{StdRandom}.

Definition RandomiseBoxes (boxes : list Z) (seed : Z) : list Z :=
  let rng := mt19937_64_seed seed in
  (shuffle boxes rng).1.

(** The inner loop of [RunRandom]; [i] and [succeed] as in the source. *)
Fixpoint RunRandom_for (search_order : list Z) (prisoner : Z) (n : nat)
    (i succeed : Z) : M (Z * Z) :=
  match n with
  | O => ret (i, succeed)
  | S n' =>
      box <~ lift (read search_order i) ;;
      b <~ load box ;;
      if decide (b = prisoner)
      then ret (MAX_BOXES_TO_OPEN + 1, uint32 (succeed + 1))
      else RunRandom_for search_order prisoner n' (i + 1) succeed
  end.

(** The search of one prisoner in the order [search_order]. *)
Definition RunRandom_prisoner (search_order : list Z) (prisoner succeed : Z)
  : M (Z * Z) :=
  RunRandom_for search_order prisoner (Z.to_nat MAX_BOXES_TO_OPEN) 0 succeed.

(** The outer loop: [search_order] and [rng] live across its iterations. *)
Fixpoint RunRandom_loop (n : nat) (prisoner : Z) (search_order : list Z)
    (rng : mt19937_64) (succeed : Z) : M Z :=
  match n with
  | O => ret succeed
  | S n' =>
      let '(search_order', rng') := shuffle search_order rng in
      r <~ RunRandom_prisoner search_order' prisoner succeed ;;
      let '(i, succeed') := r in
      if decide (i ≠ MAX_BOXES_TO_OPEN + 1)
      then ret succeed'
      else RunRandom_loop n' (prisoner + 1) search_order' rng' succeed'
  end.

Definition RunRandom (succeed seed : Z) : M Z :=
  let rng := mt19937_64_seed seed in
  let search_order := iota NUM_BOXES in
  RunRandom_loop (Z.to_nat NUM_PRISONERS) 0 search_order rng succeed.

(** One iteration of the loop of [Run] for the trial [it]: [boxes] is the
    local vector, [arr] the array the pointer [won] points into, at
    offset [won]. *)
Definition Run_trial (it : Z) (won : Z) (boxes arr : list Z)
  : option (list Z * list Z) :=
  let boxes := RandomiseBoxes boxes it in
  let succeeded_rand := 0 in
  let succeeded_method := 0 in
  '(succeeded_rand, boxes) ← call_on (RunRandom succeeded_rand it) boxes;
  '(succeeded_method, boxes) ← call_on (RunMethod succeeded_method) boxes;
  arr ← (if decide (succeeded_rand = NUM_PRISONERS)
         then incr arr (won + 0) else Some arr);
  arr ← (if decide (succeeded_method = NUM_PRISONERS)
         then incr arr (won + 1) else Some arr);
  Some (boxes, arr).

Fixpoint Run_for (n : nat) (it : Z) (won : Z) (boxes arr : list Z)
  : option (list Z * list Z) :=
  match n with
  | O => Some (boxes, arr)
  | S n' =>
      '(boxes, arr) ← Run_trial it won boxes arr;
      Run_for n' (it + 1) won boxes arr
  end.

Definition Run (startVal endVal : Z) (won : Z) (arr : list Z)
  : option (list Z) :=
  let boxes := iota NUM_BOXES in
  snd <$> Run_for (Z.to_nat (endVal - startVal)) startVal won boxes arr.
End Run.

(** ** [main] *)

(** A call [Run(startVal, endVal, &won[k])] that has been handed to a
    thread, as the triple [(startVal, endVal, k)]. *)
Definition call : Type := Z * Z * Z.

Section main.
Context `{Config} `{StdRandom}.

(** [size_t(std::max<int64_t>(std::thread::hardware_concurrency() - 2, 2))]
    or [1]; the subtraction is done on [unsigned int]. *)
Definition processor_count (hardware_concurrency : Z) : Z :=
  if USE_MULTI_THREADING
  then Z.max (uint32 (hardware_concurrency - 2)) 2
  else 1.

(** The loop that creates the threads, from thread [i] on, [n] to go. *)
Fixpoint threads (n : nat) (i stepSize : Z) : list call :=
  match n with
  | O => []
  | S n' =>
      (stepSize * i, stepSize * (i + 1), i * 2) :: threads n' (i + 1) stepSize
  end.

(** "Run for remainder", on the main thread. *)
Definition remainder (processor_count stepSize : Z) : call :=
  (stepSize * processor_count, NUM_ITERATIONS, processor_count).

Definition run_call (c : call) (arr : list Z) : option (list Z) :=
  let '(startVal, endVal, won) := c in Run startVal endVal won arr.

(** The calls executed one after the other, each to its end. *)
Fixpoint run_calls (cs : list call) (arr : list Z) : option (list Z) :=
  match cs with
  | [] => Some arr
  | c :: cs => arr ← run_call c arr; run_calls cs arr
  end.

(** "add up all wins": [for (size_t i = 2; i < (processor_count + 1) * 2; )],
    two slots an iteration. *)
Fixpoint merge (n : nat) (i : Z) (won : list Z) : option (list Z) :=
  match n with
  | O => Some won
  | S n' =>
      a ← read won i;
      w0 ← read won 0;
      let won := <[0%nat := uint64 (w0 + a)]> won in
      b ← read won (i + 1);
      w1 ← read won 1;
      let won := <[1%nat := uint64 (w1 + b)]> won in
      merge n' (i + 2) won
  end.

(** [main] for a given [processor_count] and a given order in which the
    calls run to completion; the result is the pair [(won[0], won[1])]
    that is printed. *)
Definition main_scheduled (processor_count : Z) (schedule : list call)
  : option (Z * Z) :=
  let won := replicate (Z.to_nat ((processor_count + 1) * 2)) 0 in
  won ← run_calls schedule won;
  won ← merge (Z.to_nat processor_count) 2 won;
  w0 ← read won 0;
  w1 ← read won 1;
  Some (w0, w1).

(** The calls of [main] in the order of the program text. *)
Definition calls (processor_count : Z) : list call :=
  let stepSize := NUM_ITERATIONS / processor_count in
  threads (Z.to_nat processor_count) 0 stepSize
    ++ [remainder processor_count stepSize].

(** [main] once [processor_count] is known. *)
Definition main_with (processor_count : Z) : option (Z * Z) :=
  main_scheduled processor_count (calls processor_count).

(** [main], on a machine where [std::thread::hardware_concurrency()]
    returns [hardware_concurrency]. *)
Definition main (hardware_concurrency : Z) : option (Z * Z) :=
  main_with (processor_count hardware_concurrency).
End main.

(** ** A generator to run the model with

    A linear congruential generator and the Fisher-Yates shuffle over it.
    It stands in for the library where a theorem is instantiated or the
    model is evaluated; nothing is proved about the program from it. *)

Definition lcg_next (g : Z) : Z :=
  uint64 (6364136223846793005 * g + 1442695040888963407).

Definition swap (v : list Z) (i j : nat) : list Z :=
  match v !! i, v !! j with
  | Some x, Some y => <[j := x]> (<[i := y]> v)
  | _, _ => v
  end.

(** For [i = n] down to [1], exchange [v[i]] with [v[j]], [j] drawn from
    [0 .. i]. *)
Fixpoint fisher_yates (n : nat) (v : list Z) (g : Z) : list Z * Z :=
  match n with
  | O => (v, g)
  | S n' =>
      let g' := lcg_next g in
      let j := Z.to_nat ((g' / 2 ^ 33) mod (Z.of_nat n + 1)) in
      fisher_yates n' (swap v n j) g'
  end.

Definition lcg_random : StdRandom :=
  {| mt19937_64 := Z;
     mt19937_64_seed := λ seed, uint64 seed;
     shuffle := λ v g, fisher_yates (length v - 1) v g |}.

(** ** Notions of the specification *)

(** The entries of [boxes] form a bijection on [[0,P)]: there are [P] of
    them, each in [[0,P)], no two equal, and every number of [[0,P)] is in
    some box. *)
Definition bijection_on (P : Z) (boxes : list Z) : Prop :=
  Z.of_nat (length boxes) = P
  ∧ (∀ i v, boxes !! i = Some v → 0 ≤ v < P)
  ∧ (∀ i j v, boxes !! i = Some v → boxes !! j = Some v → i = j)
  ∧ (∀ v, 0 ≤ v < P → ∃ i, boxes !! i = Some v).

(** [P] entries, all of them less than [P]. *)
Definition entries_below (P : Z) (boxes : list Z) : Prop :=
  Z.of_nat (length boxes) = P ∧ Forall (λ v, 0 ≤ v < P) boxes.

(** The box reached from box [p] after [k] moves "to the box whose index is
    the value found in the current box". *)
Fixpoint follow (boxes : list Z) (k : nat) (p : Z) : option Z :=
  match k with
  | O => Some p
  | S k' => q ← read boxes p; follow boxes k' q
  end.

(** The first [n] boxes on the way from box [p]: [p], the box whose index
    is in box [p], and so on. *)
Fixpoint chain (boxes : list Z) (n : nat) (p : Z) : list Z :=
  match n with
  | O => []
  | S n' => p :: match read boxes p with
                 | Some q => chain boxes n' q
                 | None => []
                 end
  end.

(** The cycle through [p] has length [c]: [c] moves lead back to [p], and
    no smaller positive number of moves does. *)
Definition cycle_length (boxes : list Z) (p : Z) (c : nat) : Prop :=
  (0 < c)%nat
  ∧ follow boxes c p = Some p
  ∧ ∀ j, (0 < j < c)%nat → follow boxes j p ≠ Some p.

(** The number [p] is in one of the first [K] boxes of [order]. *)
Definition among_first (K : Z) (order boxes : list Z) (p : Z) : Prop :=
  ∃ i box, 0 ≤ i < K ∧ read order i = Some box ∧ read boxes box = Some p.

(** The chain from box [p] comes back to [p] within [K] moves. *)
Definition returns_within (K : Z) (boxes : list Z) (p : Z) : Prop :=
  ∃ j, (0 < j)%nat ∧ Z.of_nat j ≤ K ∧ follow boxes j p = Some p.

(** [d] increments of a [uint32_t] counter. *)
Definition incremented (d : nat) (succeed : Z) : Z :=
  Nat.iter d (λ x, uint32 (x + 1)) succeed.

(** The vector after [n] successive calls of [std::shuffle] with one
    generator. *)
Fixpoint shuffles `{StdRandom} (n : nat) (v : list Z) (rng : mt19937_64)
  : list Z * mt19937_64 :=
  match n with
  | O => (v, rng)
  | S n' => let '(v', rng') := shuffle v rng in shuffles n' v' rng'
  end.

(** The search order of [prisoner] in [RunRandom] with seed [seed]: the
    identity after [prisoner + 1] shuffles. *)
Definition search_order_of `{Config} `{StdRandom} (seed prisoner : Z)
  : list Z :=
  (shuffles (Z.to_nat (prisoner + 1)) (iota NUM_BOXES)
     (mt19937_64_seed seed)).1.

(** Prisoner [p] is counted by [RunMethod]: the counter, which counts the
    prisoners [0], [1], ... in this order and stops at the first failure,
    got past [p]. *)
Definition counted_method `{Config} (boxes : list Z) (p : Z) : Prop :=
  ∃ r, call_on (RunMethod 0) boxes = Some (r, boxes) ∧ 0 ≤ p < r.

(** Prisoner [p] is evaluated by [RunMethod]: every prisoner before [p] was
    counted, so the loop reaches [p]. *)
Definition evaluated_method `{Config} (boxes : list Z) (p : Z) : Prop :=
  ∃ r, call_on (RunMethod 0) boxes = Some (r, boxes)
       ∧ 0 ≤ p ≤ r ∧ p < NUM_PRISONERS.

(** The same for [RunRandom] with the seed [seed]. *)
Definition counted_random `{Config} `{StdRandom} (seed : Z) (boxes : list Z)
    (p : Z) : Prop :=
  ∃ r, call_on (RunRandom 0 seed) boxes = Some (r, boxes) ∧ 0 ≤ p < r.

Definition evaluated_random `{Config} `{StdRandom} (seed : Z) (boxes : list Z)
    (p : Z) : Prop :=
  ∃ r, call_on (RunRandom 0 seed) boxes = Some (r, boxes)
       ∧ 0 ≤ p ≤ r ∧ p < NUM_PRISONERS.

(** The prisoners a strategy function evaluates when it returns [r]: the
    prisoners it counted and the one at whom it stopped. *)
Definition evaluated `{Config} (r : Z) : list Z :=
  seqZ 0 (Z.min (r + 1) NUM_PRISONERS).

(** The boxes prisoner [p] opens in the search of [RunMethod], and in the
    search of [RunRandom] with the seed [seed], in the order in which they
    are opened: what the search adds to the record. *)
Definition opens_method `{Config} (boxes : list Z) (p : Z) : list Z :=
  match RunMethod_prisoner p 0 (boxes, []) with
  | Some (_, (_, opened)) => opened
  | None => []
  end.

Definition opens_order `{Config} (order boxes : list Z) (p : Z) : list Z :=
  match RunRandom_prisoner order p 0 (boxes, []) with
  | Some (_, (_, opened)) => opened
  | None => []
  end.

Definition opens_random `{Config} `{StdRandom} (seed : Z) (boxes : list Z)
    (p : Z) : list Z :=
  opens_order (search_order_of seed p) boxes p.

(** One of the boxes in [opened] holds the number [p]. *)
Definition number_among (boxes opened : list Z) (p : Z) : Prop :=
  ∃ x, x ∈ opened ∧ read boxes x = Some p.

(** The permutation on which trial [t] is evaluated by the call of [Run]
    whose range starts at [startVal]: the [boxes] vector of that call when
    its loop reaches [it = t], after the [RandomiseBoxes] of that
    iteration. *)
Definition trial_boxes `{Config} `{StdRandom} (startVal t : Z)
  : option (list Z) :=
  '(boxes, _) ← Run_for (Z.to_nat (t - startVal)) startVal 0
                  (iota NUM_BOXES) [0; 0];
  Some (RandomiseBoxes boxes t).

(** [won[idx] += d] on the [uint64_t] array. *)
Definition bump (arr : list Z) (idx d : Z) : list Z :=
  match read arr idx with
  | Some v => <[Z.to_nat idx := uint64 (v + d)]> arr
  | None => arr
  end.

(** An array of [uint64_t]. *)
Definition uint64_array (arr : list Z) : Prop :=
  Forall (λ v, 0 ≤ v < 2 ^ 64) arr.

(** The two counters a call of [Run] writes: [won[0]] and [won[1]] behind
    the pointer it is given. *)
Definition slots (c : call) : list Z :=
  let '(_, _, won) := c in [won + 0; won + 1].

(** The trials of a call. *)
Definition trials (c : call) : list Z :=
  let '(startVal, endVal, _) := c in seqZ startVal (endVal - startVal).

(** The pair of success counts of a call on counters of its own. *)
Definition worker_wins `{Config} `{StdRandom} (c : call) : option (list Z) :=
  let '(startVal, endVal, _) := c in Run startVal endVal 0 [0; 0].

(** The sum of the entries at the even indices and the sum of the entries
    at the odd indices of an array: what the loop "add up all wins" adds
    into [won[0]] and into [won[1]]. *)
Fixpoint sums (arr : list Z) : Z * Z :=
  match arr with
  | [] => (0, 0)
  | x :: arr => let '(e, o) := sums arr in (x + o, e)
  end.

(** Where the pair [(random, method)] of success counts of a call ends up
    in the sums: as it is when the pointer [won] of the call is at an even
    index, exchanged when it is at an odd index. *)
Definition credited (c : call) (wins : Z * Z) : Z * Z :=
  let '(_, _, won) := c in
  if Z.even won then wins else (wins.2, wins.1).

(** The component-wise sum of a list of pairs. *)
Definition total (l : list (Z * Z)) : Z * Z :=
  foldr (λ w t, (w.1 + t.1, w.2 + t.2)) (0, 0) l.

(** The pair [(random, method)] of success counts of a call, and the pair
    as [main] credits it. *)
Definition wins_of `{Config} `{StdRandom} (c : call) : Z * Z :=
  match worker_wins c with
  | Some [r; m] => (r, m)
  | _ => (0, 0)
  end.

Definition credit_of `{Config} `{StdRandom} (c : call) : Z * Z :=
  credited c (wins_of c).

(** ** Small configurations to run the model on *)

(** Four prisoners, two boxes each; every one of the [4!] trials once. *)
Definition four_prisoners : Config :=
  {| USE_MULTI_THREADING := true; NUM_ITERATIONS := 24; NUM_PRISONERS := 4 |}.

(** A small configuration to run [main] on: four trials, two prisoners. *)
Definition two_prisoners : Config :=
  {| USE_MULTI_THREADING := true; NUM_ITERATIONS := 4; NUM_PRISONERS := 2 |}.


(** ** [CountBuffer] *)

(** [buffer[i]] for a buffer of any element type; [None] is a read outside
    it. *)
Definition at_index {T} (buffer : list T) (i : Z) : option T :=
  if decide (0 ≤ i) then buffer !! Z.to_nat i else None.

(** [result++] on an [int]: past [INT_MAX] the increment of a signed
    integer is undefined and has no result. *)
Definition int_incr (result : Z) : option Z :=
  if decide (result < 2 ^ 31 - 1) then Some (result + 1) else None.

Section CountBuffer.
Context {T : Type} `{EqDecision T}.

(** The loop [for (size_t i = 0; i < size; i++)], [n] iterations to go. *)
Fixpoint CountBuffer_for (buffer : list T) (val : T) (n : nat)
    (i result : Z) : option Z :=
  match n with
  | O => Some result
  | S n' =>
      b ← at_index buffer i;
      result ← (if decide (b = val) then int_incr result else Some result);
      CountBuffer_for buffer val n' (i + 1) result
  end.

Definition CountBuffer (buffer : list T) (val : T) (size : Z) : option Z :=
  let result := 0 in
  CountBuffer_for buffer val (Z.to_nat size) 0 result.
End CountBuffer.

(** ** Notions for the counts of [Run] and of [main] *)

(** On the vector [boxes] the random search with the seed [t], or the
    method, brings the whole group through: the strategy function returns
    [NUM_PRISONERS], the value [Run] compares its counter with. *)
Definition won_random `{Config} `{StdRandom} (t : Z) (boxes : list Z) : bool :=
  bool_decide (call_on (RunRandom 0 t) boxes = Some (NUM_PRISONERS, boxes)).

Definition won_method `{Config} (boxes : list Z) : bool :=
  bool_decide (call_on (RunMethod 0) boxes = Some (NUM_PRISONERS, boxes)).

(** Trial [t] of the call of [Run] whose range starts at [startVal] is a
    success of the random search, or of the method. *)
Definition trial_won_random `{Config} `{StdRandom} (startVal t : Z) : bool :=
  from_option (won_random t) false (trial_boxes startVal t).

Definition trial_won_method `{Config} `{StdRandom} (startVal t : Z) : bool :=
  from_option won_method false (trial_boxes startVal t).

(** The number of the trials [startVal], ..., [endVal - 1] that [won]
    holds of. *)
Definition count_trials (won : Z → bool) (startVal endVal : Z) : Z :=
  Z.of_nat (length (filter won (seqZ startVal (endVal - startVal)))).

(** The numbers of successes of the random search and of the method among
    the trials of a call. *)
Definition successes `{Config} `{StdRandom} (c : call) : Z * Z :=
  let '(startVal, endVal, _) := c in
  (count_trials (trial_won_random startVal) startVal endVal,
   count_trials (trial_won_method startVal) startVal endVal).

(** The vector of trial [t] in a loop of [Run] that has come to trial [it]
    with the vector [boxes]. *)
Definition boxes_at `{Config} `{StdRandom} (boxes : list Z) (it t : Z)
  : list Z :=
  foldl RandomiseBoxes boxes (seqZ it (t - it + 1)).

(** A single prisoner. *)
Definition one_prisoner : Config :=
  {| USE_MULTI_THREADING := true; NUM_ITERATIONS := 4; NUM_PRISONERS := 1 |}.
(** ** Reading arrays *)

Lemma read_Some buf i v :
  read buf i = Some v ↔ 0 ≤ i ∧ buf !! Z.to_nat i = Some v.
Proof.
  unfold read. destruct (decide (0 ≤ i)) as [Hi|Hi].
  - split; [by intros ?|by intros [_ ?]].
  - split; [by intros ?|by intros [? _]].
Qed.

Lemma read_in_range buf i :
  0 ≤ i < Z.of_nat (length buf) → is_Some (read buf i).
Proof.
  intros Hi. unfold read. rewrite decide_True by lia.
  apply lookup_lt_is_Some. lia.
Qed.

Lemma read_is_Some buf i :
  is_Some (read buf i) → 0 ≤ i < Z.of_nat (length buf).
Proof.
  intros [v [Hi Hv]%read_Some]. apply lookup_lt_Some in Hv. lia.
Qed.

Lemma entries_below_read P boxes pos :
  entries_below P boxes → 0 ≤ pos < P →
  ∃ b, read boxes pos = Some b ∧ 0 ≤ b < P.
Proof.
  intros [Hlen Hall] Hpos.
  destruct (read_in_range boxes pos) as [b Hb]; [lia|].
  exists b. split; [done|].
  apply read_Some in Hb as [_ Hb].
  by apply (Forall_lookup_1 _ _ _ _ Hall Hb).
Qed.

Lemma load_read boxes opened pos b :
  read boxes pos = Some b →
  load pos (boxes, opened) = Some (b, (boxes, opened ++ [pos])).
Proof. intros Hb. unfold load. by rewrite Hb. Qed.

Lemma load_Some pos boxes opened b buf' :
  load pos (boxes, opened) = Some (b, buf') →
  buf' = (boxes, opened ++ [pos]) ∧ read boxes pos = Some b.
Proof.
  unfold load. destruct (read boxes pos); [|done]. by intros [= <- <-].
Qed.

Lemma lift_Some {A} (o : option A) buf a buf' :
  lift o buf = Some (a, buf') → buf' = buf ∧ o = Some a.
Proof. unfold lift. destruct o; [|done]. by intros [= <- <-]. Qed.

Lemma bind_Some {A B} (c : M A) (k : A → M B) buf r :
  bind c k buf = Some r ↔
  ∃ a buf', c buf = Some (a, buf') ∧ k a buf' = Some r.
Proof.
  unfold bind. destruct (c buf) as [[a buf']|].
  - split; [by eauto|]. by intros (? & ? & [= <- <-] & ?).
  - split; [done|]. by intros (? & ? & ? & ?).
Qed.

Lemma call_on_Some {A} (c : M A) boxes a boxes' :
  call_on c boxes = Some (a, boxes') ↔
  ∃ opened, c (boxes, []) = Some (a, (boxes', opened)).
Proof.
  unfold call_on. destruct (c (boxes, [])) as [[a' [b' o']]|].
  - split; [intros [= <- <-]; eauto|]. by intros (? & [= <- <- _]).
  - split; [done|]. by intros (? & ?).
Qed.

(** ** The chain of boxes *)

Lemma follow_S boxes k p b :
  read boxes p = Some b → follow boxes (S k) p = follow boxes k b.
Proof. intros Hb. simpl. by rewrite Hb. Qed.

Lemma follow_add boxes j k p :
  follow boxes (j + k) p = q ← follow boxes j p; follow boxes k q.
Proof.
  revert p. induction j as [|j IH]; intros p; simpl; [done|].
  destruct (read boxes p) as [b|]; simpl; [apply IH|done].
Qed.

Lemma follow_in_range P boxes k p :
  entries_below P boxes → 0 ≤ p < P →
  ∃ q, follow boxes k p = Some q ∧ 0 ≤ q < P.
Proof.
  intros Hb. revert p. induction k as [|k IH]; intros p Hp; simpl.
  - eauto.
  - destruct (entries_below_read P boxes p) as (b & -> & Hbr); [done..|].
    simpl. by apply IH.
Qed.

Lemma chain_S boxes n p q :
  read boxes p = Some q → chain boxes (S n) p = p :: chain boxes n q.
Proof. intros Hq. simpl. by rewrite Hq. Qed.

Lemma length_chain boxes n p : (length (chain boxes n p) ≤ n)%nat.
Proof.
  revert p. induction n as [|n IH]; intros p; simpl; [done|].
  destruct (read boxes p) as [q|]; simpl; [|lia].
  specialize (IH q). lia.
Qed.

(** The boxes of the chain are the boxes reached by fewer than [n] moves. *)
Lemma elem_of_chain boxes n p x :
  x ∈ chain boxes n p ↔ ∃ j, (j < n)%nat ∧ follow boxes j p = Some x.
Proof.
  revert p. induction n as [|n IH]; intros p.
  - simpl. rewrite elem_of_nil. split; [done|]. intros (j & Hj & _). lia.
  - cbn [chain]. rewrite elem_of_cons. split.
    + intros [->|Hx].
      * exists 0%nat. split; [lia|done].
      * destruct (read boxes p) as [q|] eqn:Hq; [|by apply elem_of_nil in Hx].
        apply IH in Hx as (j & Hj & Hf). exists (S j). split; [lia|].
        by rewrite (follow_S _ _ _ _ Hq).
    + intros ([|j] & Hj & Hf).
      * left. simpl in Hf. congruence.
      * right. simpl in Hf. destruct (read boxes p) as [q|]; [|done].
        simpl in Hf. apply IH. exists j. split; [lia|done].
Qed.

Lemma chain_in_range P boxes n p :
  entries_below P boxes → 0 ≤ p < P →
  Forall (λ x, 0 ≤ x < P) (chain boxes n p).
Proof.
  intros Hboxes Hp. apply Forall_forall. intros x (j & _ & Hj)%elem_of_chain.
  destruct (follow_in_range P boxes j p Hboxes Hp) as (q & Hq & Hqr).
  congruence.
Qed.

(** One more move is a look into the box that was reached. *)
Lemma follow_S_r boxes j p :
  follow boxes (S j) p = q ← follow boxes j p; read boxes q.
Proof.
  replace (S j) with (j + 1)%nat by lia. rewrite follow_add.
  destruct (follow boxes j p) as [q|]; [|done]. simpl.
  by destruct (read boxes q).
Qed.

(** A box of the chain holds the number [v] exactly when one of the moves
    that follow leads to the box [v]. *)
Lemma chain_holds boxes n p v :
  (∃ x, x ∈ chain boxes n p ∧ read boxes x = Some v)
  ↔ ∃ j, (0 < j ≤ n)%nat ∧ follow boxes j p = Some v.
Proof.
  split.
  - intros (x & (j & Hj & Hx)%elem_of_chain & Hv).
    exists (S j). split; [lia|]. rewrite follow_S_r, Hx. done.
  - intros ([|j] & Hj & Hv); [lia|].
    rewrite follow_S_r in Hv.
    destruct (follow boxes j p) as [x|] eqn:Hx; [|done].
    exists x. split; [|done]. apply elem_of_chain. exists j. split; [lia|done].
Qed.

(** A decidable property that holds of some number holds of a least one. *)
Lemma least_or_none (Q : nat → Prop) `{∀ j, Decision (Q j)} n :
  (∀ j, (j < n)%nat → ¬ Q j)
  ∨ ∃ c, (c < n)%nat ∧ Q c ∧ ∀ j, (j < c)%nat → ¬ Q j.
Proof.
  induction n as [|n [IH|IH]].
  - left. lia.
  - destruct (decide (Q n)) as [Hn|Hn].
    + right. exists n. split_and!; [lia|done..].
    + left. intros j Hj. destruct (decide (j = n)) as [->|]; [done|].
      apply IH. lia.
  - right. destruct IH as (c & Hc & HQ & Hleast).
    exists c. split_and!; [lia|done..].
Qed.

(** Among the positive numbers of moves that lead back there is a least. *)
Lemma returns_within_least K boxes p :
  returns_within K boxes p ↔ ∃ c, cycle_length boxes p c ∧ Z.of_nat c ≤ K.
Proof.
  split.
  - intros (j & Hj0 & HjK & Hj).
    destruct (least_or_none
                (λ j, (0 < j)%nat ∧ follow boxes j p = Some p) (S j))
      as [Hnone|(c & Hc & [Hc0 HQ] & Hleast)].
    + exfalso. apply (Hnone j); [lia|done].
    + exists c. split; [|lia]. split_and!; [done..|].
      intros j' Hlt Hj'. apply (Hleast j'); [lia|]. split; [lia|done].
  - intros (c & (Hc0 & Hc & _) & HcK). by exists c.
Qed.

(** ** The cycle-following strategy *)

Section RunMethod_facts.
Context `{Config}.

(** The buffer is only read: whatever [RunMethod_for] returns, it returns
    with the entries of the buffer as they were. *)
Lemma RunMethod_for_frame prisoner n pos i succeed buf r buf' :
  RunMethod_for prisoner n pos i succeed buf = Some (r, buf') →
  buf'.1 = buf.1.
Proof.
  revert pos i buf. induction n as [|n IH]; intros pos i [boxes opened]; simpl.
  - unfold ret. by intros [= _ <-].
  - intros (b & buf1 & [-> Hb]%load_Some & Hk)%bind_Some.
    destruct (decide (b = prisoner)).
    + unfold ret in Hk. by injection Hk as _ <-.
    + apply bind_Some in Hk as (b' & buf2 & [-> _]%load_Some & Hk).
      by apply IH in Hk.
Qed.

Lemma RunMethod_loop_frame n prisoner succeed buf r buf' :
  RunMethod_loop n prisoner succeed buf = Some (r, buf') →
  buf'.1 = buf.1.
Proof.
  revert prisoner succeed buf. induction n as [|n IH]; intros p s buf; simpl.
  - unfold ret. by intros [= _ <-].
  - intros ([[pos i] s'] & buf1 & Hp & Hk)%bind_Some.
    apply RunMethod_for_frame in Hp.
    destruct (decide (i ≠ MAX_BOXES_TO_OPEN + 1)).
    + unfold ret in Hk. injection Hk as _ <-. done.
    + apply IH in Hk. congruence.
Qed.

Lemma RunMethod_frame succeed boxes r boxes' :
  call_on (RunMethod succeed) boxes = Some (r, boxes') → boxes' = boxes.
Proof.
  intros [opened Hrun]%call_on_Some. by apply RunMethod_loop_frame in Hrun.
Qed.

(** The inner loop, [n] iterations from position [pos]: every read is
    inside the buffer and [pos] stays in [[0,P)].  The boxes opened are the
    first [h] boxes of the chain from [pos]; they do not depend on the
    counters.  Either the loop is left by [break] ([hit]): then [h] is the
    least positive number of moves from [pos] to the box with index
    [prisoner], it is at most [n], and the last box opened holds the
    number of the prisoner.  Or the loop comes to its end: then no move up
    to the [n]-th leads there, and [h = n]. *)
Lemma RunMethod_for_spec boxes prisoner n pos :
  entries_below NUM_PRISONERS boxes →
  0 ≤ pos < NUM_PRISONERS →
  ∃ (hit : bool) (h : nat) pos' tr,
    (∀ i succeed opened,
       RunMethod_for prisoner n pos i succeed (boxes, opened)
       = Some ((pos',
                if hit then MAX_BOXES_TO_OPEN + 1 else i + Z.of_nat n,
                if hit then uint32 (succeed + 1) else succeed),
               (boxes, opened ++ tr)))
    ∧ 0 ≤ pos' < NUM_PRISONERS
    ∧ (∀ x, x ∈ tr ↔ x ∈ chain boxes h pos)
    ∧ (if hit
       then (0 < h ≤ n)%nat
            ∧ follow boxes h pos = Some prisoner
            ∧ (∀ j, (0 < j < h)%nat → follow boxes j pos ≠ Some prisoner)
       else h = n
            ∧ (∀ j, (0 < j ≤ n)%nat → follow boxes j pos ≠ Some prisoner)).
Proof.
  intros Hboxes. revert pos.
  induction n as [|n IH]; intros pos Hpos.
  - exists false, 0%nat, pos, [].
    split; [|split; [lia|split; [done|split; [done|lia]]]].
    intros i s opened. cbn [RunMethod_for]. unfold ret.
    by rewrite app_nil_r, Nat2Z.inj_0, Z.add_0_r.
  - destruct (entries_below_read _ _ _ Hboxes Hpos) as (b & Hb & Hbr).
    destruct (decide (b = prisoner)) as [->|Hne].
    + exists true, 1%nat, pos, [pos].
      split; [|split; [lia|split]].
      * intros i s opened. cbn [RunMethod_for].
        unfold bind at 1. rewrite (load_read _ _ _ _ Hb).
        by rewrite decide_True.
      * intros x. by rewrite (chain_S _ _ _ _ Hb).
      * split_and!; [lia..| |].
        -- simpl. by rewrite Hb.
        -- intros j Hj. lia.
    + destruct (IH b Hbr) as (hit & h & pos' & tr & Hrun & Hpos' & Htr & Hcase).
      exists hit, (S h), pos', (pos :: pos :: tr).
      split; [|split; [lia|split]].
      * intros i s opened. cbn [RunMethod_for].
        unfold bind at 1. rewrite (load_read _ _ _ _ Hb).
        rewrite decide_False by done.
        unfold bind at 1. rewrite (load_read _ _ _ _ Hb).
        rewrite Hrun. rewrite <- !app_assoc. cbn [app].
        replace (i + 1 + Z.of_nat n) with (i + Z.of_nat (S n)) by lia.
        done.
      * intros x. rewrite (chain_S _ _ _ _ Hb), !elem_of_cons, Htr. tauto.
      * destruct hit.
        -- destruct Hcase as (Hh & Hfh & Hleast). split_and!; [lia..| |].
           ++ by rewrite (follow_S _ _ _ _ Hb).
           ++ intros [|j] Hj; [lia|]. rewrite (follow_S _ _ _ _ Hb).
              destruct j as [|j]; [simpl; congruence|]. apply Hleast. lia.
        -- destruct Hcase as (-> & Hnone). split; [done|].
           intros [|j] Hj; [lia|]. rewrite (follow_S _ _ _ _ Hb).
           destruct j as [|j]; [simpl; congruence|]. apply Hnone. lia.
Qed.

(** The search of one prisoner: at most [K] boxes are opened, the first
    [h] boxes of the chain from the box of the prisoner; the number is
    found exactly when the cycle through the prisoner has a length [h] of
    at most [K], and then these boxes are the boxes of the cycle. *)
Lemma RunMethod_prisoner_spec boxes prisoner :
  0 ≤ NUM_PRISONERS →
  entries_below NUM_PRISONERS boxes →
  0 ≤ prisoner < NUM_PRISONERS →
  ∃ (hit : bool) (h : nat) pos,
    (∀ succeed opened,
       RunMethod_prisoner prisoner succeed (boxes, opened)
       = Some ((pos,
                if hit then MAX_BOXES_TO_OPEN + 1 else MAX_BOXES_TO_OPEN,
                if hit then uint32 (succeed + 1) else succeed),
               (boxes, opened ++ opens_method boxes prisoner)))
    ∧ 0 ≤ pos < NUM_PRISONERS
    ∧ (∀ x, x ∈ opens_method boxes prisoner ↔ x ∈ chain boxes h prisoner)
    ∧ Z.of_nat h ≤ MAX_BOXES_TO_OPEN
    ∧ (if hit
       then cycle_length boxes prisoner h
            ∧ returns_within MAX_BOXES_TO_OPEN boxes prisoner
       else Z.of_nat h = MAX_BOXES_TO_OPEN
            ∧ ¬ returns_within MAX_BOXES_TO_OPEN boxes prisoner).
Proof.
  intros HP Hboxes Hp.
  assert (0 ≤ MAX_BOXES_TO_OPEN) as HK
    by (unfold MAX_BOXES_TO_OPEN; apply Z.div_pos; lia).
  destruct (RunMethod_for_spec boxes prisoner (Z.to_nat MAX_BOXES_TO_OPEN)
              prisoner Hboxes Hp)
    as (hit & h & pos & tr & Hrun & Hpos & Htr & Hcase).
  assert (opens_method boxes prisoner = tr) as Hopens.
  { unfold opens_method, RunMethod_prisoner. by rewrite Hrun. }
  rewrite Hopens.
  exists hit, h, pos. split; [|split; [lia|split; [done|split]]].
  - intros s opened. unfold RunMethod_prisoner. rewrite Hrun.
    by rewrite Z.add_0_l, Z2Nat.id by lia.
  - destruct hit; [destruct Hcase as (Hh & _)|destruct Hcase as (-> & _)];
      lia.
  - destruct hit.
    + destruct Hcase as (Hh & Hfh & Hleast). split.
      * split_and!; [lia|done|done].
      * exists h. split_and!; [lia..|done].
    + destruct Hcase as (-> & Hnone). split; [lia|].
      intros (j & Hj0 & HjK & Hfj). apply (Hnone j); [lia|done].
Qed.

(** The loop over the prisoners from [prisoner] on, [n] of them to go: it
    counts the prisoners up to the first one whose chain does not come
    back in time, and stops there; what it adds to the record of the boxes
    opened are the searches of the [d] prisoners it counts and of the
    prisoner at whom it stops, one after the other. *)
Lemma RunMethod_loop_spec boxes opened n prisoner succeed :
  0 ≤ NUM_PRISONERS →
  entries_below NUM_PRISONERS boxes →
  0 ≤ prisoner → prisoner + Z.of_nat n ≤ NUM_PRISONERS →
  ∃ d : nat,
    RunMethod_loop n prisoner succeed (boxes, opened)
      = Some (incremented d succeed,
              (boxes,
               opened
               ++ concat (opens_method boxes
                            <$> seqZ prisoner (Z.of_nat (S d `min` n)))))
    ∧ (d ≤ n)%nat
    ∧ (∀ q, prisoner ≤ q < prisoner + Z.of_nat d →
            returns_within MAX_BOXES_TO_OPEN boxes q)
    ∧ ((d < n)%nat →
       ¬ returns_within MAX_BOXES_TO_OPEN boxes (prisoner + Z.of_nat d)).
Proof.
  intros HP Hboxes. revert opened prisoner succeed.
  induction n as [|n IH]; intros opened p s Hp Hn.
  - exists 0%nat. cbn [RunMethod_loop]. rewrite seqZ_nil by lia.
    cbn [fmap list_fmap concat]. rewrite app_nil_r.
    split_and!; [done|lia|lia|lia].
  - cbn [RunMethod_loop].
    destruct (RunMethod_prisoner_spec boxes p HP Hboxes)
      as (hit & h & pos & Hrun & _ & _ & _ & Hcase); [lia|].
    unfold bind. rewrite Hrun. destruct hit.
    + destruct Hcase as (_ & Hret). rewrite decide_False by lia.
      destruct (IH (opened ++ opens_method boxes p) (p + 1) (uint32 (s + 1)))
        as (d & -> & Hd & Hall & Hstop); [lia..|].
      exists (S d). split_and!.
      * unfold incremented. rewrite Nat.iter_succ_r. do 3 f_equal.
        rewrite <- app_assoc. f_equal.
        replace (S (S d) `min` S n)%nat with (S (S d `min` n)) by lia.
        rewrite (seqZ_cons p) by lia. rewrite fmap_cons. cbn [concat].
        replace (Z.succ p) with (p + 1) by lia.
        by replace (Z.pred (Z.of_nat (S (S d `min` n))))
          with (Z.of_nat (S d `min` n)) by lia.
      * lia.
      * intros q Hq. destruct (decide (q = p)) as [->|]; [done|].
        apply Hall. lia.
      * intros Hlt. replace (p + Z.of_nat (S d)) with (p + 1 + Z.of_nat d)
          by lia. apply Hstop. lia.
    + destruct Hcase as (_ & Hnot). rewrite decide_True by lia.
      exists 0%nat. split_and!; [|lia|lia|].
      * unfold ret, incremented. cbn [Nat.iter]. do 3 f_equal.
        replace (Z.of_nat (1 `min` S n)) with 1 by lia.
        rewrite (seqZ_cons p) by lia. rewrite (seqZ_nil (Z.succ p)) by lia.
        simpl. by rewrite app_nil_r.
      * intros _. by rewrite Z.add_0_r.
Qed.

(** A prisoner who fails ends the loop: the function returns in the state
    in which the search of this prisoner ended, with the counter as it
    was, however many prisoners are still to come. *)
Lemma RunMethod_loop_fail boxes opened n p succeed :
  0 ≤ NUM_PRISONERS →
  entries_below NUM_PRISONERS boxes →
  0 ≤ p < NUM_PRISONERS →
  ¬ returns_within MAX_BOXES_TO_OPEN boxes p →
  ∃ pos,
    RunMethod_prisoner p succeed (boxes, opened)
      = Some ((pos, MAX_BOXES_TO_OPEN, succeed),
              (boxes, opened ++ opens_method boxes p))
    ∧ RunMethod_loop (S n) p succeed (boxes, opened)
      = Some (succeed, (boxes, opened ++ opens_method boxes p)).
Proof.
  intros HP Hboxes Hp Hfail. cbn [RunMethod_loop].
  destruct (RunMethod_prisoner_spec boxes p HP Hboxes Hp)
    as (hit & h & pos & Hrun & _ & _ & _ & Hcase).
  destruct hit; [by destruct Hcase as (_ & Hret)|].
  exists pos. split; [by rewrite Hrun|].
  unfold bind. rewrite Hrun. by rewrite decide_True by lia.
Qed.

(** The boxes a search opens are boxes of the array. *)
Lemma opens_method_in_range boxes p :
  0 ≤ NUM_PRISONERS →
  entries_below NUM_PRISONERS boxes →
  0 ≤ p < NUM_PRISONERS →
  Forall (λ x, 0 ≤ x < NUM_PRISONERS) (opens_method boxes p).
Proof.
  intros HP Hboxes Hp.
  destruct (RunMethod_prisoner_spec boxes p HP Hboxes Hp)
    as (hit & h & pos & _ & _ & Htr & _).
  apply Forall_forall. intros x Hx%Htr.
  by apply (proj1 (Forall_forall _ _)
              (chain_in_range _ boxes h p Hboxes Hp)).
Qed.
End RunMethod_facts.

(** ** Counters *)

Lemma incremented_small d succeed :
  0 ≤ succeed → succeed + Z.of_nat d < 2 ^ 32 →
  incremented d succeed = succeed + Z.of_nat d.
Proof.
  unfold incremented. induction d as [|d IH]; intros Hs Hd.
  - simpl. lia.
  - rewrite Nat.iter_succ, IH by lia. unfold uint32.
    rewrite Z.mod_small by lia. lia.
Qed.

(** ** Vectors that hold a bijection *)

Lemma bijection_on_Permutation P boxes :
  0 ≤ P → bijection_on P boxes ↔ boxes ≡ₚ iota P.
Proof.
  intros HP. unfold iota. split.
  - intros (Hlen & Hrange & Hinj & Hsurj).
    apply NoDup_Permutation.
    + apply NoDup_alt. intros i j v Hi Hj. by apply (Hinj i j v).
    + apply NoDup_seqZ.
    + intros v. rewrite elem_of_seqZ, list_elem_of_lookup. split.
      * intros [i Hi]. apply Hrange in Hi. lia.
      * intros Hv. apply Hsurj. lia.
  - intros Hperm.
    assert (∀ v, v ∈ boxes ↔ 0 ≤ v < P) as Hin.
    { intros v. rewrite Hperm, elem_of_seqZ. lia. }
    assert (NoDup boxes) as Hnd by (rewrite Hperm; apply NoDup_seqZ).
    split_and!.
    + rewrite Hperm, length_seqZ. lia.
    + intros i v Hi. apply Hin, list_elem_of_lookup. eauto.
    + intros i j v Hi Hj. by apply (NoDup_lookup boxes i j v).
    + intros v Hv. apply list_elem_of_lookup, Hin, Hv.
Qed.

Lemma bijection_on_entries_below P boxes :
  bijection_on P boxes → entries_below P boxes.
Proof.
  intros (Hlen & Hrange & _). split; [done|].
  apply Forall_lookup. intros i v Hi. by apply (Hrange i).
Qed.

Lemma iota_bijection P : 0 ≤ P → bijection_on P (iota P).
Proof. intros HP. by apply bijection_on_Permutation. Qed.


(** ** The cycles of a bijection *)

Lemma lookup_chain P boxes n p (j : nat) :
  entries_below P boxes → 0 ≤ p < P → (j < n)%nat →
  chain boxes n p !! j = follow boxes j p.
Proof.
  intros Hboxes. revert p j. induction n as [|n IH]; intros p j Hp Hj; [lia|].
  destruct (entries_below_read P boxes p Hboxes Hp) as (q & Hq & Hqr).
  rewrite (chain_S _ _ _ _ Hq). destruct j as [|j]; [done|].
  rewrite (follow_S _ _ _ _ Hq). apply IH; [done|lia].
Qed.

Lemma length_chain_in_range P boxes n p :
  entries_below P boxes → 0 ≤ p < P → length (chain boxes n p) = n.
Proof.
  intros Hboxes. revert p. induction n as [|n IH]; intros p Hp; [done|].
  destruct (entries_below_read P boxes p Hboxes Hp) as (q & Hq & Hqr).
  rewrite (chain_S _ _ _ _ Hq). simpl. by rewrite IH.
Qed.

(** Moves along a bijection can be undone: two boxes from which the same
    number of moves leads to the same box are the same box. *)
Lemma follow_inj P boxes k x y :
  bijection_on P boxes → 0 ≤ x < P → 0 ≤ y < P →
  follow boxes k x = follow boxes k y → x = y.
Proof.
  intros Hbij. pose proof (bijection_on_entries_below _ _ Hbij) as Hboxes.
  revert x y. induction k as [|k IH]; intros x y Hx Hy Hxy.
  - by injection Hxy.
  - destruct (entries_below_read P boxes x Hboxes Hx) as (a & Ha & Har).
    destruct (entries_below_read P boxes y Hboxes Hy) as (b & Hb & Hbr).
    rewrite (follow_S _ _ _ _ Ha), (follow_S _ _ _ _ Hb) in Hxy.
    apply IH in Hxy as ->; [|done..].
    apply read_Some in Ha as [_ Ha]. apply read_Some in Hb as [_ Hb].
    destruct Hbij as (_ & _ & Hinj & _).
    pose proof (Hinj _ _ _ Ha Hb). lia.
Qed.

(** Coming back to the same box on the way means coming back to the
    start. *)
Lemma follow_meet P boxes p (i j : nat) :
  bijection_on P boxes → 0 ≤ p < P → (i ≤ j)%nat →
  follow boxes i p = follow boxes j p →
  follow boxes (j - i) p = Some p.
Proof.
  intros Hbij Hp Hij Heq.
  pose proof (bijection_on_entries_below _ _ Hbij) as Hboxes.
  destruct (follow_in_range P boxes (j - i) p Hboxes Hp) as (q & Hq & Hqr).
  rewrite Hq. f_equal. apply (follow_inj P boxes i); [done..|].
  rewrite Heq. symmetry.
  replace (follow boxes j p) with (follow boxes ((j - i) + i) p)
    by (f_equal; lia).
  by rewrite follow_add, Hq.
Qed.

(** A list with a repeated element has it at two positions. *)
Lemma not_NoDup_lookup (l : list Z) :
  ¬ NoDup l → ∃ (i j : nat) x, (i < j)%nat ∧ l !! i = Some x ∧ l !! j = Some x.
Proof.
  induction l as [|a l IH]; intros Hnd.
  - destruct Hnd. constructor.
  - destruct (decide (a ∈ l)) as [Hin|Hnin].
    + apply list_elem_of_lookup in Hin as [j Hj].
      exists 0%nat, (S j), a. split; [lia|done].
    + destruct IH as (i & j & x & Hij & Hi & Hj).
      { intros Hl. apply Hnd. by constructor. }
      exists (S i), (S j), x. split; [lia|done].
Qed.

(** On a bijection every chain comes back to its start, after at most [P]
    moves: among the first [P + 1] boxes on the way two are the same. *)
Lemma follow_returns P boxes p :
  bijection_on P boxes → 0 ≤ p < P → returns_within P boxes p.
Proof.
  intros Hbij Hp. pose proof (bijection_on_entries_below _ _ Hbij) as Hboxes.
  set (n := Z.to_nat P).
  destruct (not_NoDup_lookup (chain boxes (S n) p))
    as (i & j & x & Hij & Hi & Hj).
  { intros Hnd.
    assert (chain boxes (S n) p ⊆+ iota P) as Hsub.
    { apply NoDup_submseteq; [done|]. intros y Hy.
      pose proof (chain_in_range P boxes (S n) p Hboxes Hp) as Hr.
      apply (proj1 (Forall_forall _ _) Hr) in Hy.
      unfold iota. apply elem_of_seqZ. lia. }
    apply submseteq_length in Hsub.
    rewrite (length_chain_in_range P) in Hsub by done.
    unfold iota in Hsub. rewrite length_seqZ in Hsub. lia. }
  pose proof (lookup_lt_Some _ _ _ Hj) as Hjn.
  rewrite (length_chain_in_range P) in Hjn by done.
  rewrite (lookup_chain P) in Hi, Hj by (done || lia).
  exists (j - i)%nat. split_and!; [lia|lia|].
  apply (follow_meet P); [done|done|lia|congruence].
Qed.

(** Every box of a bijection is on a cycle, of length at most [P]. *)
Lemma cycle_length_exists P boxes p :
  bijection_on P boxes → 0 ≤ p < P →
  ∃ c, cycle_length boxes p c ∧ Z.of_nat c ≤ P.
Proof. intros Hbij Hp. by apply returns_within_least, follow_returns. Qed.

Lemma cycle_length_unique boxes p c1 c2 :
  cycle_length boxes p c1 → cycle_length boxes p c2 → c1 = c2.
Proof.
  intros (H1 & Hf1 & Hl1) (H2 & Hf2 & Hl2).
  destruct (Nat.lt_trichotomy c1 c2) as [Hlt|[->|Hlt]]; [|done|].
  - by destruct (Hl2 c1).
  - by destruct (Hl1 c2).
Qed.

(** The first boxes on the way around a cycle are different boxes. *)
Lemma chain_NoDup P boxes p c h :
  bijection_on P boxes → 0 ≤ p < P → cycle_length boxes p c →
  (h ≤ c)%nat → NoDup (chain boxes h p).
Proof.
  intros Hbij Hp (Hc & Hfc & Hleast) Hh.
  pose proof (bijection_on_entries_below _ _ Hbij) as Hboxes.
  apply NoDup_alt. intros i j x Hi Hj.
  pose proof (lookup_lt_Some _ _ _ Hi) as Hic.
  pose proof (lookup_lt_Some _ _ _ Hj) as Hjc.
  rewrite (length_chain_in_range P) in Hic, Hjc by done.
  rewrite (lookup_chain P) in Hi, Hj by done.
  destruct (Nat.lt_trichotomy i j) as [Hlt|[->|Hlt]]; [|done|].
  - destruct (Hleast (j - i)%nat); [lia|].
    apply (follow_meet P); [done|done|lia|congruence].
  - destruct (Hleast (i - j)%nat); [lia|].
    apply (follow_meet P); [done|done|lia|congruence].
Qed.

(** The [c] boxes on the way around a cycle of length [c] are [c]
    different boxes, and the move from the last of them leads to the
    first: they are the cycle. *)
Lemma cycle_chain P boxes p c :
  bijection_on P boxes → 0 ≤ p < P → cycle_length boxes p c →
  NoDup (chain boxes c p)
  ∧ length (chain boxes c p) = c
  ∧ ∀ x, x ∈ chain boxes c p →
         ∃ y, read boxes x = Some y ∧ y ∈ chain boxes c p.
Proof.
  intros Hbij Hp Hcycle. pose proof Hcycle as (Hc & Hfc & Hleast).
  pose proof (bijection_on_entries_below _ _ Hbij) as Hboxes.
  split_and!.
  - by apply (chain_NoDup P boxes p c c).
  - by apply (length_chain_in_range P).
  - intros x (j & Hj & Hx)%elem_of_chain.
    destruct (follow_in_range P boxes (S j) p Hboxes Hp) as (y & Hy & Hyr).
    exists y. pose proof Hy as Hy'. rewrite follow_S_r, Hx in Hy'.
    split; [done|]. apply elem_of_chain.
    destruct (decide (S j = c)) as [<-|].
    + exists 0%nat. split; [lia|]. simpl. congruence.
    + exists (S j). split; [lia|done].
Qed.
(** ** The random-search strategy *)

Section RunRandom_facts.
Context `{Config} `{StdRandom}.

Lemma RunRandom_for_frame search_order prisoner n i succeed buf r buf' :
  RunRandom_for search_order prisoner n i succeed buf = Some (r, buf') →
  buf'.1 = buf.1.
Proof.
  revert i buf. induction n as [|n IH]; intros i [boxes opened]; simpl.
  - unfold ret. by intros [= _ <-].
  - intros (box & buf1 & [-> _]%lift_Some & Hk)%bind_Some.
    apply bind_Some in Hk as (b & buf2 & [-> _]%load_Some & Hk).
    destruct (decide (b = prisoner)).
    + unfold ret in Hk. by injection Hk as _ <-.
    + by apply IH in Hk.
Qed.

Lemma RunRandom_loop_frame n prisoner search_order rng succeed buf r buf' :
  RunRandom_loop n prisoner search_order rng succeed buf = Some (r, buf') →
  buf'.1 = buf.1.
Proof.
  revert prisoner search_order rng succeed buf.
  induction n as [|n IH]; intros p order rng s buf; simpl.
  - unfold ret. by intros [= _ <-].
  - destruct (shuffle order rng) as [order' rng'].
    intros ([i s'] & buf1 & Hp & Hk)%bind_Some.
    apply RunRandom_for_frame in Hp.
    destruct (decide (i ≠ MAX_BOXES_TO_OPEN + 1)).
    + unfold ret in Hk. injection Hk as _ <-. done.
    + apply IH in Hk. congruence.
Qed.

Lemma RunRandom_frame succeed seed boxes r boxes' :
  call_on (RunRandom succeed seed) boxes = Some (r, boxes') → boxes' = boxes.
Proof.
  intros [opened Hrun]%call_on_Some. by apply RunRandom_loop_frame in Hrun.
Qed.

Lemma take_drop_S {A} (l : list A) (k h : nat) x :
  l !! k = Some x → take (S h) (drop k l) = x :: take h (drop (S k) l).
Proof. intros Hx. by rewrite (drop_S _ _ _ Hx). Qed.

(** The inner loop over the entries [i .. i+n-1] of a search order that
    names boxes only.  The boxes opened are those of the first [h] of
    these entries, in this order; they do not depend on the counter.
    Either the loop is left by [break] ([hit]): then the last of them is
    the first one that holds the number of the prisoner.  Or the loop
    comes to its end: then [h = n] and none of them holds it. *)
Lemma RunRandom_for_spec boxes search_order prisoner n i :
  search_order ≡ₚ iota NUM_PRISONERS →
  Z.of_nat (length boxes) = NUM_PRISONERS →
  0 ≤ i → i + Z.of_nat n ≤ NUM_PRISONERS →
  ∃ (hit : bool) (h : nat),
    (∀ succeed opened,
       RunRandom_for search_order prisoner n i succeed (boxes, opened)
       = Some ((if hit then MAX_BOXES_TO_OPEN + 1 else i + Z.of_nat n,
                if hit then uint32 (succeed + 1) else succeed),
               (boxes, opened ++ take h (drop (Z.to_nat i) search_order))))
    ∧ (if hit
       then (0 < h ≤ n)%nat
            ∧ (∃ box, read search_order (i + Z.of_nat h - 1) = Some box
                      ∧ read boxes box = Some prisoner)
            ∧ (∀ k box, i ≤ k < i + Z.of_nat h - 1 →
                        read search_order k = Some box →
                        read boxes box ≠ Some prisoner)
       else h = n
            ∧ (∀ k box, i ≤ k < i + Z.of_nat n →
                        read search_order k = Some box →
                        read boxes box ≠ Some prisoner)).
Proof.
  intros Horder Hlen. revert i.
  induction n as [|n IH]; intros i Hi Hn.
  - exists false, 0%nat. split.
    + intros s opened. cbn [RunRandom_for]. unfold ret.
      by rewrite take_0, app_nil_r, Nat2Z.inj_0, Z.add_0_r.
    + split; [done|]. intros k box Hk. lia.
  - assert (Z.of_nat (length search_order) = NUM_PRISONERS) as Hlo.
    { rewrite Horder. unfold iota. rewrite length_seqZ. lia. }
    destruct (read_in_range search_order i) as [box Hbox]; [lia|].
    assert (0 ≤ box < NUM_PRISONERS) as Hbr.
    { apply read_Some in Hbox as [_ Hbox].
      apply list_elem_of_lookup_2 in Hbox. rewrite Horder in Hbox.
      unfold iota in Hbox. apply elem_of_seqZ in Hbox. lia. }
    destruct (read_in_range boxes box) as [b Hb]; [lia|].
    pose proof Hbox as [_ Hbox']%read_Some.
    destruct (decide (b = prisoner)) as [->|Hne].
    + exists true, 1%nat. split.
      * intros s opened. cbn [RunRandom_for].
        unfold bind at 1. unfold lift at 1. rewrite Hbox.
        unfold bind at 1. rewrite (load_read _ _ _ _ Hb).
        rewrite decide_True by done.
        by rewrite (take_drop_S _ _ _ _ Hbox'), take_0.
      * split; [lia|]. split.
        -- exists box. split; [|done].
           by replace (i + Z.of_nat 1 - 1) with i by lia.
        -- intros k box' Hk. lia.
    + destruct (IH (i + 1)) as (hit & h & Hrun & Hcase); [lia..|].
      exists hit, (S h). split.
      * intros s opened. cbn [RunRandom_for].
        unfold bind at 1. unfold lift at 1. rewrite Hbox.
        unfold bind at 1. rewrite (load_read _ _ _ _ Hb).
        rewrite decide_False by done. rewrite Hrun.
        rewrite (take_drop_S _ _ _ _ Hbox'), <- app_assoc. cbn [app].
        replace (Z.to_nat (i + 1)) with (S (Z.to_nat i)) by lia.
        by replace (i + 1 + Z.of_nat n) with (i + Z.of_nat (S n)) by lia.
      * destruct hit.
        -- destruct Hcase as (Hh & (box' & Hbox1 & Hb1) & Hfirst).
           split; [lia|]. split.
           ++ exists box'. split; [|done].
              by replace (i + Z.of_nat (S h) - 1)
                with (i + 1 + Z.of_nat h - 1) by lia.
           ++ intros k box2 Hk Hbox2.
              destruct (decide (k = i)) as [->|].
              ** rewrite Hbox in Hbox2. injection Hbox2 as <-. congruence.
              ** apply (Hfirst k); [lia|done].
        -- destruct Hcase as (-> & Hnone). split; [done|].
           intros k box2 Hk Hbox2.
           destruct (decide (k = i)) as [->|].
           ++ rewrite Hbox in Hbox2. injection Hbox2 as <-. congruence.
           ++ apply (Hnone k); [lia|done].
Qed.

(** The search of one prisoner in a given order: the boxes opened are the
    first [h] entries of the order, [h ≤ K]; the number is found exactly
    when it is in one of the first [K] boxes of the order, and then the
    search stops at the first such box; otherwise all [K] are opened. *)
Lemma RunRandom_prisoner_spec boxes search_order prisoner :
  0 ≤ NUM_PRISONERS →
  search_order ≡ₚ iota NUM_PRISONERS →
  Z.of_nat (length boxes) = NUM_PRISONERS →
  ∃ (hit : bool) (h : nat),
    (∀ succeed opened,
       RunRandom_prisoner search_order prisoner succeed (boxes, opened)
       = Some ((if hit then MAX_BOXES_TO_OPEN + 1 else MAX_BOXES_TO_OPEN,
                if hit then uint32 (succeed + 1) else succeed),
               (boxes, opened ++ opens_order search_order boxes prisoner)))
    ∧ opens_order search_order boxes prisoner = take h search_order
    ∧ Z.of_nat h ≤ MAX_BOXES_TO_OPEN
    ∧ (if hit
       then among_first MAX_BOXES_TO_OPEN search_order boxes prisoner
            ∧ (0 < h)%nat
            ∧ (∃ box, read search_order (Z.of_nat h - 1) = Some box
                      ∧ read boxes box = Some prisoner)
            ∧ (∀ k box, 0 ≤ k < Z.of_nat h - 1 →
                        read search_order k = Some box →
                        read boxes box ≠ Some prisoner)
       else ¬ among_first MAX_BOXES_TO_OPEN search_order boxes prisoner
            ∧ Z.of_nat h = MAX_BOXES_TO_OPEN).
Proof.
  intros HP Horder Hlen.
  assert (0 ≤ MAX_BOXES_TO_OPEN ≤ NUM_PRISONERS) as HK.
  { unfold MAX_BOXES_TO_OPEN. split; [apply Z.div_pos; lia|].
    apply Z.div_le_upper_bound; lia. }
  destruct (RunRandom_for_spec boxes search_order prisoner
              (Z.to_nat MAX_BOXES_TO_OPEN) 0 Horder Hlen)
    as (hit & h & Hrun & Hcase); [lia..|].
  assert (opens_order search_order boxes prisoner = take h search_order)
    as Hopens.
  { unfold opens_order, RunRandom_prisoner. by rewrite Hrun. }
  exists hit, h. split; [|split; [done|split]].
  - intros s opened. unfold RunRandom_prisoner. rewrite Hrun, Hopens.
    by rewrite Z.add_0_l, Z2Nat.id by lia.
  - destruct hit; [destruct Hcase as (Hh & _)|destruct Hcase as (-> & _)];
      lia.
  - destruct hit.
    + destruct Hcase as (Hh & (box & Hbox & Hb) & Hfirst).
      rewrite Z.add_0_l in Hbox. split; [|split; [lia|split]].
      * exists (Z.of_nat h - 1), box. split; [lia|done].
      * by exists box.
      * intros k box' Hk. apply Hfirst. lia.
    + destruct Hcase as (-> & Hnone). split; [|lia].
      intros (k & box & Hk & Hbox & Hb).
      apply (Hnone k box); [lia|done|done].
Qed.
End RunRandom_facts.


Section RunRandom_loop_facts.
Context `{Config} `{StdRandom} `{!StdRandomSpec}.

Lemma shuffles_Permutation n v rng : (shuffles n v rng).1 ≡ₚ v.
Proof.
  revert v rng. induction n as [|n IH]; intros v rng; simpl; [done|].
  pose proof (shuffle_Permutation v rng) as Hv.
  destruct (shuffle v rng) as [v' rng']. simpl in Hv.
  by rewrite IH.
Qed.

Lemma shuffles_S n v rng :
  shuffles (S n) v rng = shuffles n (shuffle v rng).1 (shuffle v rng).2.
Proof. simpl. by destruct (shuffle v rng). Qed.

(** The loop over the prisoners from [prisoner] on, [n] of them to go, in
    the state [(search_order, rng)]: prisoner [prisoner + k] searches in
    the order that [k + 1] further shuffles produce; the loop counts the
    prisoners up to the first one who does not find the number, and stops
    there; what it adds to the record of the boxes opened are the searches
    of the [d] prisoners it counts and of the prisoner at whom it stops. *)
Lemma RunRandom_loop_spec boxes opened n prisoner search_order rng succeed :
  0 ≤ NUM_PRISONERS →
  search_order ≡ₚ iota NUM_PRISONERS →
  Z.of_nat (length boxes) = NUM_PRISONERS →
  ∃ d : nat,
    RunRandom_loop n prisoner search_order rng succeed (boxes, opened)
      = Some (incremented d succeed,
              (boxes,
               opened
               ++ concat ((λ k : nat,
                             opens_order (shuffles (S k) search_order rng).1
                               boxes (prisoner + Z.of_nat k))
                            <$> seq 0 (S d `min` n))))
    ∧ (d ≤ n)%nat
    ∧ (∀ k, (k < d)%nat →
            among_first MAX_BOXES_TO_OPEN
              (shuffles (S k) search_order rng).1 boxes
              (prisoner + Z.of_nat k))
    ∧ ((d < n)%nat →
       ¬ among_first MAX_BOXES_TO_OPEN
           (shuffles (S d) search_order rng).1 boxes
           (prisoner + Z.of_nat d)).
Proof.
  intros HP Horder Hlen.
  revert opened prisoner search_order rng succeed Horder.
  induction n as [|n IH]; intros opened p order rng s Horder.
  - exists 0%nat. cbn [RunRandom_loop]. simpl. rewrite app_nil_r.
    split_and!; [done|lia|lia|lia].
  - cbn [RunRandom_loop].
    pose proof (shuffle_Permutation order rng) as Hperm.
    assert (∀ k, shuffles (S k) order rng
                 = shuffles k (shuffle order rng).1 (shuffle order rng).2)
      as Hsh by (intros; apply shuffles_S).
    destruct (shuffle order rng) as [order' rng']. cbn [fst snd] in Hperm, Hsh.
    assert (order' ≡ₚ iota NUM_PRISONERS) as Horder' by by rewrite Hperm.
    destruct (RunRandom_prisoner_spec boxes order' p HP Horder' Hlen)
      as (hit & h & Hrun & _ & _ & Hcase).
    unfold bind. rewrite Hrun. destruct hit.
    + destruct Hcase as (Hfound & _). rewrite decide_False by lia.
      destruct (IH (opened ++ opens_order order' boxes p) (p + 1) order' rng'
                  (uint32 (s + 1)) Horder')
        as (d & -> & Hd & Hall & Hstop).
      exists (S d). split_and!.
      * unfold incremented. rewrite Nat.iter_succ_r. do 3 f_equal.
        rewrite <- app_assoc. f_equal.
        replace (S (S d) `min` S n)%nat with (S (S d `min` n)) by lia.
        rewrite <- cons_seq, fmap_cons. cbn [concat].
        rewrite (Hsh 0%nat).
        change (shuffles 0 order' rng') with (order', rng'). cbn [fst].
        rewrite Nat2Z.inj_0, Z.add_0_r.
        f_equal. f_equal.
        rewrite <- fmap_S_seq, <- list_fmap_compose.
        apply list_fmap_ext. intros j k _. cbn [compose].
        rewrite Hsh. f_equal. lia.
      * lia.
      * intros [|k] Hk; rewrite Hsh.
        -- simpl. by rewrite Z.add_0_r.
        -- replace (p + Z.of_nat (S k)) with (p + 1 + Z.of_nat k) by lia.
           apply Hall. lia.
      * intros Hlt. rewrite Hsh.
        replace (p + Z.of_nat (S d)) with (p + 1 + Z.of_nat d) by lia.
        apply Hstop. lia.
    + destruct Hcase as (Hnot & _). rewrite decide_True by lia.
      exists 0%nat. split_and!; [|lia|lia|].
      * unfold ret, incremented. cbn [Nat.iter]. do 3 f_equal.
        replace (1 `min` S n)%nat with 1%nat by lia.
        rewrite <- cons_seq, fmap_cons. cbn [seq fmap list_fmap concat].
        rewrite (Hsh 0%nat).
        change (shuffles 0 order' rng') with (order', rng'). cbn [fst].
        by rewrite Nat2Z.inj_0, Z.add_0_r, app_nil_r.
      * intros _. rewrite Hsh. simpl. by rewrite Z.add_0_r.
Qed.

(** A prisoner who fails ends the loop: the function returns in the state
    in which the search of this prisoner ended. *)
Lemma RunRandom_loop_fail boxes opened n p search_order rng succeed :
  0 ≤ NUM_PRISONERS →
  Z.of_nat (length boxes) = NUM_PRISONERS →
  search_order ≡ₚ iota NUM_PRISONERS →
  let order := (shuffle search_order rng).1 in
  ¬ among_first MAX_BOXES_TO_OPEN order boxes p →
  RunRandom_prisoner order p succeed (boxes, opened)
    = Some ((MAX_BOXES_TO_OPEN, succeed),
            (boxes, opened ++ opens_order order boxes p))
  ∧ RunRandom_loop (S n) p search_order rng succeed (boxes, opened)
    = Some (succeed, (boxes, opened ++ opens_order order boxes p)).
Proof.
  intros HP Hlen Horder order Hfail. cbn [RunRandom_loop].
  pose proof (shuffle_Permutation search_order rng) as Hperm.
  unfold order in *. clear order.
  destruct (shuffle search_order rng) as [order' rng'].
  cbn [fst] in Hperm, Hfail |- *.
  destruct (RunRandom_prisoner_spec boxes order' p)
    as (hit & h & Hrun & _ & _ & Hcase); [lia|by rewrite Hperm|done|].
  destruct hit; [by destruct Hcase as (Hfound & _)|].
  split; [by rewrite Hrun|].
  unfold bind. rewrite Hrun. by rewrite decide_True by lia.
Qed.

(** [RunRandom] from a counter at [0]: the result [r] is the number of the
    first prisoner whose search order does not show the number in its
    first [K] boxes, or [P] when there is none; the boxes opened are those
    of the searches of the prisoners evaluated. *)
Lemma RunRandom_opened boxes seed :
  0 ≤ NUM_PRISONERS < 2 ^ 16 →
  Z.of_nat (length boxes) = NUM_PRISONERS →
  ∃ r,
    RunRandom 0 seed (boxes, [])
      = Some (r, (boxes, concat (opens_random seed boxes <$> evaluated r)))
    ∧ 0 ≤ r ≤ NUM_PRISONERS
    ∧ (∀ p, 0 ≤ p < r →
            among_first MAX_BOXES_TO_OPEN (search_order_of seed p) boxes p)
    ∧ (r < NUM_PRISONERS →
       ¬ among_first MAX_BOXES_TO_OPEN (search_order_of seed r) boxes r).
Proof.
  intros HP Hlen. unfold RunRandom, NUM_BOXES.
  destruct (RunRandom_loop_spec boxes [] (Z.to_nat NUM_PRISONERS) 0
              (iota NUM_PRISONERS) (mt19937_64_seed seed) 0)
    as (d & -> & Hd & Hall & Hstop); [lia|done|done|].
  rewrite incremented_small by lia.
  exists (Z.of_nat d). split_and!; [|lia|lia|..].
  - cbn [app]. rewrite Z.add_0_l. do 4 f_equal. unfold evaluated, seqZ.
    replace (Z.to_nat (Z.min (Z.of_nat d + 1) NUM_PRISONERS))
      with (Nat.min (S d) (Z.to_nat NUM_PRISONERS)) by lia.
    rewrite <- list_fmap_compose. apply list_fmap_ext. intros j k _.
    cbn [compose]. unfold opens_random, search_order_of, NUM_BOXES.
    rewrite !Z.add_0_l. do 3 f_equal; lia.
  - intros p Hp. specialize (Hall (Z.to_nat p)).
    unfold search_order_of, NUM_BOXES.
    replace (Z.to_nat (p + 1)) with (S (Z.to_nat p)) by lia.
    replace (0 + Z.of_nat (Z.to_nat p)) with p in Hall by lia.
    apply Hall. lia.
  - intros Hlt. unfold search_order_of, NUM_BOXES.
    replace (Z.to_nat (Z.of_nat d + 1)) with (S d) by lia.
    rewrite Z.add_0_l in Hstop. apply Hstop. lia.
Qed.

Lemma RunRandom_spec boxes seed :
  0 ≤ NUM_PRISONERS < 2 ^ 16 →
  Z.of_nat (length boxes) = NUM_PRISONERS →
  ∃ r,
    call_on (RunRandom 0 seed) boxes = Some (r, boxes)
    ∧ 0 ≤ r ≤ NUM_PRISONERS
    ∧ (∀ p, 0 ≤ p < r →
            among_first MAX_BOXES_TO_OPEN (search_order_of seed p) boxes p)
    ∧ (r < NUM_PRISONERS →
       ¬ among_first MAX_BOXES_TO_OPEN (search_order_of seed r) boxes r).
Proof.
  intros HP Hlen.
  destruct (RunRandom_opened boxes seed HP Hlen) as (r & Hrun & Hrest).
  exists r. split; [|done]. unfold call_on. by rewrite Hrun.
Qed.
End RunRandom_loop_facts.

Section RunMethod_result.
Context `{Config}.

(** [RunMethod] from a counter at [0]: the result [r] is the number of the
    first prisoner whose chain does not come back within [K] moves, or
    [P] when there is none; the boxes opened are those of the searches of
    the prisoners evaluated. *)
Lemma RunMethod_opened boxes :
  0 ≤ NUM_PRISONERS < 2 ^ 16 →
  entries_below NUM_PRISONERS boxes →
  ∃ r,
    RunMethod 0 (boxes, [])
      = Some (r, (boxes, concat (opens_method boxes <$> evaluated r)))
    ∧ 0 ≤ r ≤ NUM_PRISONERS
    ∧ (∀ p, 0 ≤ p < r → returns_within MAX_BOXES_TO_OPEN boxes p)
    ∧ (r < NUM_PRISONERS → ¬ returns_within MAX_BOXES_TO_OPEN boxes r).
Proof.
  intros HP Hboxes. unfold RunMethod.
  destruct (RunMethod_loop_spec boxes [] (Z.to_nat NUM_PRISONERS) 0 0)
    as (d & -> & Hd & Hall & Hstop); [lia|done|lia|lia|].
  rewrite incremented_small by lia.
  exists (Z.of_nat d). split_and!; [|lia|lia|..].
  - cbn [app]. rewrite Z.add_0_l. unfold evaluated.
    by replace (Z.of_nat (S d `min` Z.to_nat NUM_PRISONERS))
      with (Z.min (Z.of_nat d + 1) NUM_PRISONERS) by lia.
  - intros p Hp. apply Hall. lia.
  - intros Hlt. rewrite Z.add_0_l in Hstop. apply Hstop. lia.
Qed.

Lemma RunMethod_spec boxes :
  0 ≤ NUM_PRISONERS < 2 ^ 16 →
  entries_below NUM_PRISONERS boxes →
  ∃ r,
    call_on (RunMethod 0) boxes = Some (r, boxes)
    ∧ 0 ≤ r ≤ NUM_PRISONERS
    ∧ (∀ p, 0 ≤ p < r → returns_within MAX_BOXES_TO_OPEN boxes p)
    ∧ (r < NUM_PRISONERS → ¬ returns_within MAX_BOXES_TO_OPEN boxes r).
Proof.
  intros HP Hboxes.
  destruct (RunMethod_opened boxes HP Hboxes) as (r & Hrun & Hrest).
  exists r. split; [|done]. unfold call_on. by rewrite Hrun.
Qed.
End RunMethod_result.

(** ** The generator the model is run with *)

Lemma swap_Permutation v i j : swap v i j ≡ₚ v.
Proof.
  unfold swap. destruct (v !! i) as [x|] eqn:Hi; [|done].
  destruct (v !! j) as [y|] eqn:Hj; [|done].
  by apply Permutation_insert_swap.
Qed.

Lemma fisher_yates_Permutation n v g : (fisher_yates n v g).1 ≡ₚ v.
Proof.
  revert v g. induction n as [|n IH]; intros v g; [done|].
  cbn [fisher_yates]. rewrite IH. apply swap_Permutation.
Qed.

Lemma lcg_random_spec : @StdRandomSpec lcg_random.
Proof. intros v g. apply fisher_yates_Permutation. Qed.

(** ** Counters in the [won] array *)

Lemma incr_bump arr idx :
  0 ≤ idx < Z.of_nat (length arr) → incr arr idx = Some (bump arr idx 1).
Proof.
  intros Hidx. unfold incr, bump.
  destruct (read_in_range arr idx Hidx) as [v ->]. done.
Qed.

Lemma length_bump arr idx d : length (bump arr idx d) = length arr.
Proof.
  unfold bump. destruct (read arr idx); [|done]. by rewrite length_insert.
Qed.

Lemma uint64_range x : 0 ≤ uint64 x < 2 ^ 64.
Proof. unfold uint64. apply Z.mod_pos_bound. lia. Qed.

Lemma uint64_uint64_add x y : uint64 (uint64 x + y) = uint64 (x + y).
Proof. unfold uint64. by rewrite Zplus_mod_idemp_l. Qed.

Lemma uint64_array_bump arr idx d :
  uint64_array arr → uint64_array (bump arr idx d).
Proof.
  intros Harr. unfold bump. destruct (read arr idx) as [v|]; [|done].
  apply Forall_insert; [done|]. apply uint64_range.
Qed.

Lemma uint64_array_zeros n : uint64_array (replicate n 0).
Proof. apply Forall_replicate. lia. Qed.

Lemma bump_0 arr idx : uint64_array arr → bump arr idx 0 = arr.
Proof.
  intros Harr. unfold bump. destruct (read arr idx) as [v|] eqn:Hv; [|done].
  apply read_Some in Hv as [_ Hv].
  pose proof (Forall_lookup_1 _ _ _ _ Harr Hv) as Hr. cbn beta in Hr.
  unfold uint64. rewrite Z.add_0_r, Z.mod_small by lia.
  by apply list_insert_id.
Qed.

Lemma bump_bump arr idx d1 d2 :
  bump (bump arr idx d1) idx d2 = bump arr idx (d1 + d2).
Proof.
  unfold bump at 2 3. destruct (read arr idx) as [v|] eqn:Hv.
  - pose proof Hv as [Hidx Hl]%read_Some.
    unfold bump, read. rewrite decide_True by done.
    rewrite list_lookup_insert_eq by by eapply lookup_lt_Some.
    rewrite list_insert_insert_eq, uint64_uint64_add. f_equal. f_equal. lia.
  - unfold bump. by rewrite Hv.
Qed.

Lemma read_insert_ne arr (k : nat) v idx :
  Z.to_nat idx ≠ k → read (<[k := v]> arr) idx = read arr idx.
Proof.
  intros Hne. unfold read. destruct (decide (0 ≤ idx)); [|done].
  by rewrite list_lookup_insert_ne.
Qed.

Lemma read_bump_ne arr i j d : i ≠ j → read (bump arr i d) j = read arr j.
Proof.
  intros Hne. unfold bump. destruct (read arr i) as [v|] eqn:Hv; [|done].
  apply read_Some in Hv as [Hi _].
  destruct (decide (0 ≤ j)) as [Hj|Hj].
  - apply read_insert_ne. lia.
  - unfold read. by rewrite !decide_False.
Qed.

Lemma read_bump_eq arr i d v :
  read arr i = Some v → read (bump arr i d) i = Some (uint64 (v + d)).
Proof.
  intros Hv. unfold bump. rewrite Hv.
  apply read_Some in Hv as [Hi Hv]. apply read_Some. split; [done|].
  apply list_lookup_insert_eq. by eapply lookup_lt_Some.
Qed.

Lemma bump_comm arr i j a b :
  i ≠ j → bump (bump arr i a) j b = bump (bump arr j b) i a.
Proof.
  intros Hne. unfold bump at 1 3.
  rewrite !read_bump_ne by done.
  destruct (read arr j) as [vj|] eqn:Hj, (read arr i) as [vi|] eqn:Hi;
    unfold bump; rewrite ?Hi, ?Hj; try done.
  apply read_Some in Hi as [Hi0 _]. apply read_Some in Hj as [Hj0 _].
  apply list_insert_insert_ne. lia.
Qed.

(** ** [Run] *)

Section Run_facts.
Context `{Config} `{StdRandom} `{!StdRandomSpec}.

Lemma RandomiseBoxes_Permutation boxes seed :
  RandomiseBoxes boxes seed ≡ₚ boxes.
Proof. apply shuffle_Permutation. Qed.

(** One trial: both strategies run to their end on the shuffled vector
    and leave it as it is; each adds one to its counter exactly when all
    [P] prisoners succeeded. *)
Lemma Run_trial_spec it boxes :
  0 ≤ NUM_PRISONERS < 2 ^ 16 →
  boxes ≡ₚ iota NUM_PRISONERS →
  let b := RandomiseBoxes boxes it in
  ∃ r m,
    call_on (RunRandom 0 it) b = Some (r, b)
    ∧ call_on (RunMethod 0) b = Some (m, b)
    ∧ ∀ won arr,
        0 ≤ won → won + 1 < Z.of_nat (length arr) → uint64_array arr →
        Run_trial it won boxes arr
          = Some (b, bump (bump arr won
                             (if decide (r = NUM_PRISONERS) then 1 else 0))
                       (won + 1)
                       (if decide (m = NUM_PRISONERS) then 1 else 0)).
Proof.
  intros HP Hboxes b.
  assert (b ≡ₚ iota NUM_PRISONERS) as Hb
    by (unfold b; by rewrite RandomiseBoxes_Permutation).
  apply bijection_on_Permutation in Hb as Hbij; [|lia].
  destruct (RunRandom_spec b it HP) as (r & Hr & _); [apply Hbij|].
  destruct (RunMethod_spec b HP) as (m & Hm & _);
    [by apply bijection_on_entries_below|].
  exists r, m. split_and!; [done..|].
  intros won arr Hwon Hlen Harr. unfold Run_trial. fold b.
  rewrite Hr. simpl. rewrite Hm. simpl. rewrite Z.add_0_r.
  destruct (decide (r = NUM_PRISONERS)) as [Hrp|Hrp].
  - rewrite incr_bump by lia. simpl.
    destruct (decide (m = NUM_PRISONERS)) as [Hmp|Hmp].
    + rewrite incr_bump by (rewrite length_bump; lia). done.
    + simpl. rewrite (bump_0 _ (won + 1)); [done|].
      by apply uint64_array_bump.
  - simpl. rewrite (bump_0 arr won) by done.
    destruct (decide (m = NUM_PRISONERS)) as [Hmp|Hmp].
    + rewrite incr_bump by lia. done.
    + simpl. by rewrite bump_0.
Qed.

(** [n] trials from trial [it] on: the vector goes through the shuffles
    seeded [it], [it + 1], ... one after the other, and the two counters
    behind [won] grow by the numbers [r] and [m] of successes, which do
    not depend on where the counters are. *)
Lemma Run_for_spec n it boxes :
  0 ≤ NUM_PRISONERS < 2 ^ 16 →
  boxes ≡ₚ iota NUM_PRISONERS →
  ∃ r m,
    0 ≤ r ≤ Z.of_nat n ∧ 0 ≤ m ≤ Z.of_nat n
    ∧ ∀ won arr,
        0 ≤ won → won + 1 < Z.of_nat (length arr) → uint64_array arr →
        Run_for n it won boxes arr
          = Some (foldl RandomiseBoxes boxes (seqZ it (Z.of_nat n)),
                  bump (bump arr won r) (won + 1) m).
Proof.
  intros HP. revert it boxes. induction n as [|n IH]; intros it boxes Hboxes.
  - exists 0, 0. split_and!; [lia..|].
    intros won arr Hwon Hlen Harr. cbn [Run_for].
    rewrite seqZ_nil by lia. cbn [foldl].
    by rewrite !bump_0 by (try apply uint64_array_bump; done).
  - destruct (Run_trial_spec it boxes HP Hboxes) as (r1 & m1 & _ & _ & Htrial).
    destruct (IH (it + 1) (RandomiseBoxes boxes it))
      as (r & m & Hr & Hm & Hrun).
    { by rewrite RandomiseBoxes_Permutation. }
    exists ((if decide (r1 = NUM_PRISONERS) then 1 else 0) + r),
           ((if decide (m1 = NUM_PRISONERS) then 1 else 0) + m).
    split_and!; [repeat case_decide; lia..|].
    intros won arr Hwon Hlen Harr. cbn [Run_for].
    rewrite Htrial by done. simpl.
    rewrite Hrun;
      [|done|by rewrite !length_bump|by repeat apply uint64_array_bump].
    rewrite (seqZ_cons it) by lia. simpl.
    replace (Z.pred (Z.of_nat (S n))) with (Z.of_nat n) by lia.
    replace (Z.succ it) with (it + 1) by lia.
    do 2 f_equal.
    rewrite (bump_comm _ (won + 1) won) by lia.
    rewrite bump_bump, bump_bump. done.
Qed.
End Run_facts.

(** ** The claims about [RunMethod] *)

Lemma entries_below_nonneg P boxes : entries_below P boxes → 0 ≤ P.
Proof. intros [<- _]. lia. Qed.

Lemma bijection_on_dec_Permutation P boxes :
  0 ≤ P → bool_decide (boxes ≡ₚ iota P) = true → bijection_on P boxes.
Proof.
  intros HP Hdec. apply bijection_on_Permutation; [done|].
  by apply bool_decide_eq_true in Hdec.
Qed.

(** C10. For every boxes array with [P] entries, all of them less than [P],
    [RunMethod] reads inside the array only: it returns a result (the
    out-of-range outcome [None] does not occur), whatever the counter it is
    given, and every position it reads at is in [[0,P)]; in the loop of
    every prisoner the position [pos] is in [[0,P)] after any number [n] of
    iterations. *)
Theorem RunMethod_reads_in_bounds `{Config} (boxes : list Z) :
  entries_below NUM_PRISONERS boxes →
  (∀ succeed opened, ∃ r tr,
     RunMethod succeed (boxes, opened) = Some (r, (boxes, opened ++ tr))
     ∧ Forall (λ pos, 0 ≤ pos < NUM_PRISONERS) tr)
  ∧ (∀ prisoner n i succeed opened,
       0 ≤ prisoner < NUM_PRISONERS →
       ∃ pos i' succeed' tr,
         RunMethod_for prisoner n prisoner i succeed (boxes, opened)
           = Some ((pos, i', succeed'), (boxes, opened ++ tr))
         ∧ 0 ≤ pos < NUM_PRISONERS
         ∧ Forall (λ pos, 0 ≤ pos < NUM_PRISONERS) tr).
Proof.
  intros Hboxes. pose proof (entries_below_nonneg _ _ Hboxes) as HP. split.
  - intros s opened. unfold RunMethod.
    destruct (RunMethod_loop_spec boxes opened (Z.to_nat NUM_PRISONERS) 0 s)
      as (d & Hrun & _); [done|done|lia|lia|].
    eexists _, _. split; [exact Hrun|].
    apply Forall_concat, Forall_fmap, Forall_seqZ. intros p Hp.
    apply opens_method_in_range; [done|done|lia].
  - intros p n i s opened Hp.
    destruct (RunMethod_for_spec boxes p n p Hboxes Hp)
      as (hit & h & pos & tr & Hrun & Hpos & Htr & _).
    eexists pos, _, _, tr. split; [apply Hrun|]. split; [lia|].
    apply Forall_forall. intros x Hx%Htr.
    by apply (proj1 (Forall_forall _ _)
                (chain_in_range _ boxes h p Hboxes Hp)).
Qed.

Lemma RunMethod_reads_in_bounds_witness :
  entries_below 4 [1; 1; 3; 0]
  ∧ (∀ succeed opened, ∃ r tr,
       @RunMethod four_prisoners succeed ([1; 1; 3; 0], opened)
       = Some (r, ([1; 1; 3; 0], opened ++ tr))
       ∧ Forall (λ pos, 0 ≤ pos < 4) tr).
Proof.
  assert (entries_below 4 [1; 1; 3; 0]) as Hb.
  { split; [reflexivity|]. repeat constructor; lia. }
  split; [exact Hb|].
  exact (proj1 (@RunMethod_reads_in_bounds four_prisoners [1; 1; 3; 0] Hb)).
Defined.

Section RunMethod_claims.
Context `{Config}.

(** The whole group succeeds exactly when the chain of every prisoner
    comes back within [K] moves. *)
Lemma RunMethod_full_success boxes :
  0 ≤ NUM_PRISONERS < 2 ^ 16 →
  entries_below NUM_PRISONERS boxes →
  call_on (RunMethod 0) boxes = Some (NUM_PRISONERS, boxes)
  ↔ ∀ p, 0 ≤ p < NUM_PRISONERS → returns_within MAX_BOXES_TO_OPEN boxes p.
Proof.
  intros HP Hboxes.
  destruct (RunMethod_spec boxes HP Hboxes) as (r & Hrun & Hr & Hall & Hstop).
  rewrite Hrun. split.
  - intros [= ->]. done.
  - intros Hret. destruct (decide (r = NUM_PRISONERS)) as [->|Hne]; [done|].
    exfalso. apply Hstop; [lia|]. apply Hret. lia.
Qed.

Lemma elem_of_evaluated r p :
  p ∈ evaluated r ↔ 0 ≤ p ≤ r ∧ p < NUM_PRISONERS.
Proof. unfold evaluated. rewrite elem_of_seqZ. lia. Qed.

(** C5, as amended. For every permutation of [[0,P)], the search of a
    prisoner [p] opens the box [p], then the box whose index is the value
    found, and so on: the first [h] boxes of the chain from [p], which are
    [h] different boxes, [h] at most [K = P/2].  It finds the number (the
    counter is incremented, the loop is left with [i = K + 1]) exactly when
    the number is in one of the boxes opened, which is exactly when the
    length [c] of the cycle through [p] is at most [K]; the boxes opened
    are then the [c] boxes of the cycle, and all of the first [K] boxes of
    the chain otherwise.  The function runs the searches of the prisoners
    it evaluates, one after the other and nothing else, and a prisoner it
    evaluates is counted exactly when the cycle has length at most [K]. *)
Theorem RunMethod_counts_short_cycles (boxes : list Z) :
  0 ≤ NUM_PRISONERS < 2 ^ 16 →
  bijection_on NUM_PRISONERS boxes →
  (∀ p, 0 ≤ p < NUM_PRISONERS →
     ∃ (hit : bool) (h c : nat) pos,
       (∀ succeed opened,
          RunMethod_prisoner p succeed (boxes, opened)
          = Some ((pos,
                   if hit then MAX_BOXES_TO_OPEN + 1 else MAX_BOXES_TO_OPEN,
                   if hit then uint32 (succeed + 1) else succeed),
                  (boxes, opened ++ opens_method boxes p)))
       ∧ (∀ x, x ∈ opens_method boxes p ↔ x ∈ chain boxes h p)
       ∧ NoDup (chain boxes h p)
       ∧ length (chain boxes h p) = h
       ∧ Z.of_nat h ≤ MAX_BOXES_TO_OPEN
       ∧ cycle_length boxes p c
       ∧ (if hit
          then number_among boxes (opens_method boxes p) p ∧ h = c
          else ¬ number_among boxes (opens_method boxes p) p
               ∧ Z.of_nat h = MAX_BOXES_TO_OPEN
               ∧ MAX_BOXES_TO_OPEN < Z.of_nat c))
  ∧ (∃ r,
       RunMethod 0 (boxes, [])
       = Some (r, (boxes, concat (opens_method boxes <$> evaluated r)))
       ∧ ∀ p, evaluated_method boxes p ↔ p ∈ evaluated r)
  ∧ (∀ p, evaluated_method boxes p →
       (counted_method boxes p
        ↔ ∃ c, cycle_length boxes p c ∧ Z.of_nat c ≤ MAX_BOXES_TO_OPEN)).
Proof.
  intros HP Hbij.
  pose proof (bijection_on_entries_below _ _ Hbij) as Hboxes.
  split; [|split].
  - intros p Hp.
    destruct (RunMethod_prisoner_spec boxes p)
      as (hit & h & pos & Hrun & _ & Htr & Hh & Hcase); [lia|done|done|].
    destruct (cycle_length_exists _ boxes p Hbij Hp) as (c & Hc & _).
    exists hit, h, c, pos.
    assert (number_among boxes (opens_method boxes p) p
            ↔ ∃ j, (0 < j ≤ h)%nat ∧ follow boxes j p = Some p) as Hamong.
    { rewrite <- chain_holds. unfold number_among.
      split; intros (x & Hx & Hv); exists x; by rewrite ?Htr in *. }
    assert ((h ≤ c)%nat
            ∧ if hit then h = c else MAX_BOXES_TO_OPEN < Z.of_nat c)
      as [Hhc Hlen].
    { destruct hit.
      - destruct Hcase as (Hch & _).
        rewrite (cycle_length_unique _ _ _ _ Hch Hc). split; [lia|done].
      - destruct Hcase as (HhK & Hnot).
        assert (MAX_BOXES_TO_OPEN < Z.of_nat c) as Hlt.
        { destruct (decide (MAX_BOXES_TO_OPEN < Z.of_nat c)); [done|].
          exfalso. apply Hnot, returns_within_least.
          exists c. split; [done|lia]. }
        split; [lia|done]. }
    split; [done|]. split; [done|]. split.
    { by apply (chain_NoDup NUM_PRISONERS boxes p c h). }
    split.
    { by apply (length_chain_in_range NUM_PRISONERS). }
    split; [done|]. split; [done|].
    destruct hit.
    + destruct Hcase as (Hch & Hret). split; [|done].
      apply Hamong. exists h. destruct Hch as (? & ? & _). split; [lia|done].
    + destruct Hcase as (HhK & Hnot). split; [|done].
      intros (j & Hj & Hfj)%Hamong. apply Hnot.
      exists j. split_and!; [lia..|done].
  - destruct (RunMethod_opened boxes HP Hboxes) as (r & Hrun & Hr & _).
    exists r. split; [done|]. intros p. rewrite elem_of_evaluated.
    unfold evaluated_method, call_on. rewrite Hrun. split.
    + by intros (r' & [= <-] & ?).
    + intros ?. by exists r.
  - intros p (r & Hrun & Hpr & HpP). rewrite <- returns_within_least.
    destruct (RunMethod_spec boxes HP Hboxes) as (r' & Hrun' & Hr & Hall & Hstop).
    rewrite Hrun in Hrun'. injection Hrun' as <-. split.
    + intros (r' & Hrun' & Hlt). rewrite Hrun in Hrun'. injection Hrun' as <-.
      apply Hall. lia.
    + intros Hret. exists r. split; [done|].
      destruct (decide (p = r)) as [->|]; [|lia].
      exfalso. apply Hstop; [lia|done].
Qed.

(** A prisoner is evaluated exactly when every prisoner before found the
    number. *)
Lemma RunMethod_evaluated_prefix boxes :
  0 ≤ NUM_PRISONERS < 2 ^ 16 →
  entries_below NUM_PRISONERS boxes →
  ∀ p, 0 ≤ p < NUM_PRISONERS →
    evaluated_method boxes p
    ↔ ∀ q, 0 ≤ q < p → returns_within MAX_BOXES_TO_OPEN boxes q.
Proof.
  intros HP Hboxes p Hp.
  destruct (RunMethod_spec boxes HP Hboxes) as (r & Hrun & Hr & Hall & Hstop).
  split.
  - intros (r' & Hrun' & Hpr & _) q Hq. rewrite Hrun in Hrun'.
    injection Hrun' as <-. apply Hall. lia.
  - intros Hpre. exists r. split; [done|]. split; [|lia]. split; [lia|].
    destruct (decide (p ≤ r)); [done|]. exfalso. apply Hstop; [lia|].
    apply Hpre. lia.
Qed.
End RunMethod_claims.

Lemma RunMethod_counts_short_cycles_witness :
  bijection_on 4 [1; 0; 3; 2]
  ∧ @evaluated_method four_prisoners [1; 0; 3; 2] 2
  ∧ (@counted_method four_prisoners [1; 0; 3; 2] 2
     ↔ ∃ c, cycle_length [1; 0; 3; 2] 2 c
            ∧ Z.of_nat c ≤ @MAX_BOXES_TO_OPEN four_prisoners).
Proof.
  assert (bijection_on 4 [1; 0; 3; 2]) as Hb.
  { apply bijection_on_dec_Permutation; [lia|]. vm_compute. reflexivity. }
  assert (@evaluated_method four_prisoners [1; 0; 3; 2] 2) as He.
  { exists 4. split; [vm_compute; reflexivity|].
    cbv [NUM_PRISONERS four_prisoners]. lia. }
  split; [exact Hb|]. split; [exact He|].
  refine (proj2 (proj2 (@RunMethod_counts_short_cycles four_prisoners
                          [1; 0; 3; 2] _ Hb)) 2 He).
  cbv [NUM_PRISONERS four_prisoners]. lia.
Defined.

(** C5 as it is written fails: in the permutation [1, 2, 0, 3] of four
    boxes the cycle of prisoner 3 has length [1], but prisoner 0, on a
    cycle of length [3], fails first, and [RunMethod] returns with the
    counter at [0]: prisoner 3 is not counted. *)
Lemma RunMethod_skips_short_cycle :
  ¬ (∀ boxes p,
       bijection_on 4 boxes → 0 ≤ p < 4 →
       (@counted_method four_prisoners boxes p
        ↔ ∃ c, cycle_length boxes p c
               ∧ Z.of_nat c ≤ @MAX_BOXES_TO_OPEN four_prisoners)).
Proof.
  intros Hclaim.
  assert (bijection_on 4 [1; 2; 0; 3]) as Hb.
  { apply bijection_on_dec_Permutation; [lia|]. vm_compute. reflexivity. }
  destruct (Hclaim [1; 2; 0; 3] 3 Hb ltac:(lia)) as [_ Hcounted].
  destruct Hcounted as (r & Hrun & Hr).
  - exists 1%nat. split; [|vm_compute; congruence].
    split_and!; [lia|reflexivity|lia].
  - vm_compute in Hrun. injection Hrun as <-. lia.
Qed.

(** C8. With [P = 4] and [K = 2] there are 24 permutations of the boxes.
    The cycle-following strategy brings the whole group through exactly on
    those whose cycles all have length at most 2, which are the
    involutions, and these are 10 of the 24. *)
Theorem RunMethod_four_prisoners :
  length (permutations (iota 4)) = 24%nat
  ∧ (∀ boxes, bijection_on 4 boxes ↔ boxes ∈ permutations (iota 4))
  ∧ (∀ boxes, bijection_on 4 boxes →
       (call_on (@RunMethod four_prisoners 0) boxes = Some (4, boxes)
        ↔ ∀ p, 0 ≤ p < 4 → ∃ c, cycle_length boxes p c ∧ (c ≤ 2)%nat)
       ∧ (call_on (@RunMethod four_prisoners 0) boxes = Some (4, boxes)
          ↔ ∀ p, 0 ≤ p < 4 → follow boxes 2 p = Some p))
  ∧ length (filter (λ boxes, call_on (@RunMethod four_prisoners 0) boxes
                              = Some (4, boxes))
              (permutations (iota 4))) = 10%nat.
Proof.
  assert (∀ boxes, bijection_on 4 boxes ↔ boxes ∈ permutations (iota 4))
    as Henum.
  { intros boxes. rewrite permutations_Permutation.
    rewrite bijection_on_Permutation by lia. split; by intros ->. }
  split_and!; [by vm_compute|done| |by vm_compute].
  intros boxes Hbij. split.
  - rewrite (@RunMethod_full_success four_prisoners boxes);
      [|cbv [NUM_PRISONERS four_prisoners]; lia
       |by apply bijection_on_entries_below].
    split; intros Hall p Hp.
    + destruct (proj1 (returns_within_least _ _ _) (Hall p Hp))
        as (c & Hc & Hle).
      exists c. split; [done|]. change (Z.of_nat c ≤ 2) in Hle. lia.
    + apply returns_within_least. destruct (Hall p Hp) as (c & Hc & Hle).
      exists c. split; [done|]. change (Z.of_nat c ≤ 2). lia.
  - assert ((∀ p, 0 ≤ p < 4 → follow boxes 2 p = Some p)
            ↔ Forall (λ p, follow boxes 2 p = Some p) (iota 4)) as ->.
    { unfold iota. rewrite Forall_seqZ. split; intros Hall p Hp;
        apply Hall; lia. }
    apply Henum in Hbij. revert boxes Hbij. apply Forall_forall.
    apply (bool_decide_unpack _). by vm_compute.
Qed.

Lemma RunMethod_four_prisoners_witness :
  bijection_on 4 [3; 2; 1; 0]
  ∧ (call_on (@RunMethod four_prisoners 0) [3; 2; 1; 0]
     = Some (4, [3; 2; 1; 0])
     ↔ ∀ p, 0 ≤ p < 4 → follow [3; 2; 1; 0] 2 p = Some p).
Proof.
  assert (bijection_on 4 [3; 2; 1; 0]) as Hb.
  { apply bijection_on_dec_Permutation; [lia|]. vm_compute. reflexivity. }
  split; [exact Hb|].
  exact (proj2 (proj1 (proj2 (proj2 RunMethod_four_prisoners))
                  [3; 2; 1; 0] Hb)).
Defined.

(** ** The claims about both strategies *)

Section strategy_claims.
Context `{Config} `{StdRandom} `{!StdRandomSpec}.

(** C6, as amended. In [RunRandom], for every permutation [boxes] and
    every prisoner it evaluates, the search order is the outcome of a
    further shuffle of the vector of all [P] boxes.  The prisoner opens its
    entries from the first on, stops at the first box that holds the
    prisoner's number, and stops after [K = P/2] boxes at the latest.  The
    prisoner is counted (the counter is incremented and the loop left with
    [i = K + 1]) exactly when one of the first [K] boxes of the order
    holds the number.  First for one iteration of the loop in any state
    [(search_order, rng)], then for the function as a whole, which runs
    the searches of the prisoners it evaluates and nothing else. *)
Theorem RunRandom_counts_first_K (boxes : list Z) (seed : Z) :
  0 ≤ NUM_PRISONERS < 2 ^ 16 →
  bijection_on NUM_PRISONERS boxes →
  (∀ p search_order rng,
     search_order ≡ₚ iota NUM_BOXES →
     let order := (shuffle search_order rng).1 in
     order ≡ₚ iota NUM_BOXES
     ∧ ∃ (hit : bool) (h : nat),
         (∀ succeed opened,
            RunRandom_prisoner order p succeed (boxes, opened)
            = Some ((if hit then MAX_BOXES_TO_OPEN + 1
                     else MAX_BOXES_TO_OPEN,
                     if hit then uint32 (succeed + 1) else succeed),
                    (boxes, opened ++ take h order)))
         ∧ NoDup (take h order)
         ∧ length (take h order) = h
         ∧ Z.of_nat h ≤ MAX_BOXES_TO_OPEN
         ∧ (if hit
            then among_first MAX_BOXES_TO_OPEN order boxes p
                 ∧ (0 < h)%nat
                 ∧ (∃ box, read order (Z.of_nat h - 1) = Some box
                           ∧ read boxes box = Some p)
                 ∧ (∀ k box, 0 ≤ k < Z.of_nat h - 1 →
                             read order k = Some box →
                             read boxes box ≠ Some p)
            else ¬ among_first MAX_BOXES_TO_OPEN order boxes p
                 ∧ Z.of_nat h = MAX_BOXES_TO_OPEN))
  ∧ (∃ r,
       RunRandom 0 seed (boxes, [])
       = Some (r, (boxes, concat (opens_random seed boxes <$> evaluated r)))
       ∧ ∀ p, evaluated_random seed boxes p ↔ p ∈ evaluated r)
  ∧ (∀ p, evaluated_random seed boxes p →
       let order := search_order_of seed p in
       order ≡ₚ iota NUM_BOXES
       ∧ (counted_random seed boxes p
          ↔ among_first MAX_BOXES_TO_OPEN order boxes p)
       ∧ ∃ h : nat,
           opens_random seed boxes p = take h order
           ∧ Z.of_nat h ≤ MAX_BOXES_TO_OPEN
           ∧ (counted_random seed boxes p →
              (0 < h)%nat
              ∧ (∃ box, read order (Z.of_nat h - 1) = Some box
                        ∧ read boxes box = Some p)
              ∧ (∀ k box, 0 ≤ k < Z.of_nat h - 1 →
                          read order k = Some box →
                          read boxes box ≠ Some p))
           ∧ (¬ counted_random seed boxes p →
              Z.of_nat h = MAX_BOXES_TO_OPEN)).
Proof.
  intros HP Hbij. pose proof Hbij as (Hlen & _).
  destruct (RunRandom_opened boxes seed HP Hlen)
    as (r & Hrun & Hr & Hall & Hstop).
  assert (call_on (RunRandom 0 seed) boxes = Some (r, boxes)) as Hcall
    by (unfold call_on; by rewrite Hrun).
  unfold NUM_BOXES. split; [|split].
  - intros p order rng Horder. cbn zeta.
    assert ((shuffle order rng).1 ≡ₚ iota NUM_PRISONERS) as Horder'
      by by rewrite shuffle_Permutation.
    split; [done|].
    destruct (RunRandom_prisoner_spec boxes (shuffle order rng).1 p)
      as (hit & h & Hp & Hopens & Hh & Hcase); [lia|done..|].
    exists hit, h. split; [|split; [|split; [|split; [done|done]]]].
    + intros s opened. by rewrite Hp, Hopens.
    + apply (sublist_NoDup _ (shuffle order rng).1); [|apply sublist_take].
      rewrite Horder'. apply NoDup_seqZ.
    + apply length_take_le. rewrite Horder'. unfold iota.
      rewrite length_seqZ.
      assert (MAX_BOXES_TO_OPEN ≤ NUM_PRISONERS)
        by (unfold MAX_BOXES_TO_OPEN; apply Z.div_le_upper_bound; lia).
      lia.
  - exists r. split; [done|]. intros p. rewrite elem_of_evaluated.
    unfold evaluated_random. rewrite Hcall. split.
    + by intros (r' & [= <-] & ?).
    + intros ?. by exists r.
  - cbn zeta. intros p (r' & Hrun' & Hpr & Hp).
    set (order := search_order_of seed p).
    rewrite Hcall in Hrun'. injection Hrun' as <-.
    assert (counted_random seed boxes p
            ↔ among_first MAX_BOXES_TO_OPEN order boxes p) as Hcounted.
    { split.
      - intros (r' & Hrun' & Hlt). rewrite Hcall in Hrun'.
        injection Hrun' as <-. apply Hall. lia.
      - intros Hfound. exists r. split; [done|].
        destruct (decide (p = r)) as [->|]; [|lia].
        exfalso. apply Hstop; [lia|done]. }
    split; [apply shuffles_Permutation|]. split; [done|].
    destruct (RunRandom_prisoner_spec boxes order p)
      as (hit & h & _ & Hopens & Hh & Hcase);
      [lia|apply shuffles_Permutation|done|].
    exists h. rewrite !Hcounted. split; [done|]. split; [done|].
    destruct hit.
    + destruct Hcase as (Hfound & Hrest). split; [done|]. by intros [].
    + destruct Hcase as (Hnot & HhK). split; [by intros ?|done].
Qed.

Lemma RunMethod_fail boxes p :
  0 ≤ NUM_PRISONERS < 2 ^ 16 →
  entries_below NUM_PRISONERS boxes →
  0 ≤ p < NUM_PRISONERS →
  ¬ returns_within MAX_BOXES_TO_OPEN boxes p →
  ∃ r, call_on (RunMethod 0) boxes = Some (r, boxes)
       ∧ 0 ≤ r ≤ p ∧ r < NUM_PRISONERS.
Proof.
  intros HP Hboxes Hp Hfail.
  destruct (RunMethod_spec boxes HP Hboxes) as (r & Hrun & Hr & Hall & Hstop).
  exists r. split; [done|].
  destruct (decide (r ≤ p)); [lia|]. exfalso. apply Hfail, Hall. lia.
Qed.

Lemma RunRandom_fail boxes seed p :
  0 ≤ NUM_PRISONERS < 2 ^ 16 →
  Z.of_nat (length boxes) = NUM_PRISONERS →
  0 ≤ p < NUM_PRISONERS →
  ¬ among_first MAX_BOXES_TO_OPEN (search_order_of seed p) boxes p →
  ∃ r, call_on (RunRandom 0 seed) boxes = Some (r, boxes)
       ∧ 0 ≤ r ≤ p ∧ r < NUM_PRISONERS.
Proof.
  intros HP Hlen Hp Hfail.
  destruct (RunRandom_spec boxes seed HP Hlen)
    as (r & Hrun & Hr & Hall & Hstop).
  exists r. split; [done|].
  destruct (decide (r ≤ p)); [lia|]. exfalso. apply Hfail, Hall. lia.
Qed.

(** The tally of a trial in which a prisoner fails: the counter of the
    strategy stays as it was. *)
Lemma Run_trial_loss it boxes won arr :
  0 ≤ NUM_PRISONERS < 2 ^ 16 →
  boxes ≡ₚ iota NUM_PRISONERS →
  0 ≤ won → won + 1 < Z.of_nat (length arr) → uint64_array arr →
  let b := RandomiseBoxes boxes it in
  ∃ arr',
    Run_trial it won boxes arr = Some (b, arr')
    ∧ ((∃ p, 0 ≤ p < NUM_PRISONERS
             ∧ ¬ among_first MAX_BOXES_TO_OPEN (search_order_of it p) b p) →
       read arr' won = read arr won)
    ∧ ((∃ p, 0 ≤ p < NUM_PRISONERS
             ∧ ¬ returns_within MAX_BOXES_TO_OPEN b p) →
       read arr' (won + 1) = read arr (won + 1)).
Proof.
  intros HP Hboxes Hwon Hlen Harr b.
  assert (bijection_on NUM_PRISONERS b) as Hbij.
  { apply bijection_on_Permutation; [lia|].
    unfold b. by rewrite RandomiseBoxes_Permutation. }
  pose proof Hbij as (Hblen & _).
  pose proof (bijection_on_entries_below _ _ Hbij) as Hbelow.
  destruct (Run_trial_spec it boxes HP Hboxes) as (r & m & Hr & Hm & Htrial).
  fold b in Hr, Hm, Htrial. eexists. split; [by apply Htrial|].
  split.
  - intros (p & Hp & Hfail).
    destruct (RunRandom_fail b it p HP Hblen Hp Hfail) as (r' & Hr' & _ & Hlt).
    rewrite Hr in Hr'. injection Hr' as <-.
    rewrite read_bump_ne by lia.
    rewrite (decide_False (P := r = NUM_PRISONERS)) by lia.
    by rewrite bump_0.
  - intros (p & Hp & Hfail).
    destruct (RunMethod_fail b p HP Hbelow Hp Hfail) as (m' & Hm' & _ & Hlt).
    rewrite Hm in Hm'. injection Hm' as <-.
    rewrite (decide_False (P := m = NUM_PRISONERS)) by lia.
    rewrite bump_0 by by apply uint64_array_bump.
    apply read_bump_ne. lia.
Qed.

(** C7. Both strategies stop at the first prisoner who fails.  For every
    permutation: an iteration of the prisoners' loop in which the prisoner
    does not find the number within [K] boxes ends the function, however
    many prisoners [n] are still to come: it returns the counter as it was,
    and the buffer and the record of the boxes opened as the search of this
    prisoner left them: no later prisoner opens a box.  If any
    prisoner fails, the result is therefore at most that prisoner's number,
    less than [P]; and the trial on that permutation adds nothing to the
    counter of the strategy in the [won] array. *)
Theorem strategies_short_circuit (boxes : list Z) (seed : Z) :
  0 ≤ NUM_PRISONERS < 2 ^ 16 →
  bijection_on NUM_PRISONERS boxes →
  (∀ n p succeed opened,
     0 ≤ p < NUM_PRISONERS →
     ¬ returns_within MAX_BOXES_TO_OPEN boxes p →
     ∃ pos,
       RunMethod_prisoner p succeed (boxes, opened)
         = Some ((pos, MAX_BOXES_TO_OPEN, succeed),
                 (boxes, opened ++ opens_method boxes p))
       ∧ RunMethod_loop (S n) p succeed (boxes, opened)
         = Some (succeed, (boxes, opened ++ opens_method boxes p)))
  ∧ (∀ p, 0 ≤ p < NUM_PRISONERS →
       ¬ returns_within MAX_BOXES_TO_OPEN boxes p →
       ∃ r, call_on (RunMethod 0) boxes = Some (r, boxes)
            ∧ 0 ≤ r ≤ p ∧ r < NUM_PRISONERS)
  ∧ (∀ n p search_order rng succeed opened,
       search_order ≡ₚ iota NUM_BOXES →
       let order := (shuffle search_order rng).1 in
       ¬ among_first MAX_BOXES_TO_OPEN order boxes p →
       RunRandom_prisoner order p succeed (boxes, opened)
         = Some ((MAX_BOXES_TO_OPEN, succeed),
                 (boxes, opened ++ opens_order order boxes p))
       ∧ RunRandom_loop (S n) p search_order rng succeed (boxes, opened)
         = Some (succeed, (boxes, opened ++ opens_order order boxes p)))
  ∧ (∀ p, 0 ≤ p < NUM_PRISONERS →
       ¬ among_first MAX_BOXES_TO_OPEN (search_order_of seed p) boxes p →
       ∃ r, call_on (RunRandom 0 seed) boxes = Some (r, boxes)
            ∧ 0 ≤ r ≤ p ∧ r < NUM_PRISONERS)
  ∧ (∀ it boxes0 won arr,
       RandomiseBoxes boxes0 it = boxes →
       boxes0 ≡ₚ iota NUM_BOXES →
       0 ≤ won → won + 1 < Z.of_nat (length arr) → uint64_array arr →
       ∃ arr',
         Run_trial it won boxes0 arr = Some (boxes, arr')
         ∧ ((∃ p, 0 ≤ p < NUM_PRISONERS
                  ∧ ¬ among_first MAX_BOXES_TO_OPEN
                        (search_order_of it p) boxes p) →
            read arr' won = read arr won)
         ∧ ((∃ p, 0 ≤ p < NUM_PRISONERS
                  ∧ ¬ returns_within MAX_BOXES_TO_OPEN boxes p) →
            read arr' (won + 1) = read arr (won + 1))).
Proof.
  intros HP Hbij. pose proof Hbij as (Hlen & _).
  pose proof (bijection_on_entries_below _ _ Hbij) as Hboxes.
  split_and!.
  - intros n p s opened Hp Hfail. apply RunMethod_loop_fail; [lia|done..].
  - intros p Hp Hfail. by apply RunMethod_fail.
  - cbn zeta. intros n p order rng s opened Horder Hfail.
    by apply RunRandom_loop_fail; [lia|..].
  - intros p Hp Hfail. by apply RunRandom_fail.
  - intros it boxes0 won arr <- Hboxes0 Hwon Hwlen Harr.
    by apply Run_trial_loss.
Qed.
End strategy_claims.

Lemma RunRandom_counts_first_K_witness :
  bijection_on 4 [1; 0; 3; 2]
  ∧ @evaluated_random four_prisoners lcg_random 7 [1; 0; 3; 2] 0
  ∧ (@counted_random four_prisoners lcg_random 7 [1; 0; 3; 2] 0
     ↔ among_first 2 (@search_order_of four_prisoners lcg_random 7 0)
         [1; 0; 3; 2] 0).
Proof.
  assert (bijection_on 4 [1; 0; 3; 2]) as Hb.
  { apply bijection_on_dec_Permutation; [lia|]. vm_compute. reflexivity. }
  assert (@evaluated_random four_prisoners lcg_random 7 [1; 0; 3; 2] 0)
    as He.
  { eexists. split; [vm_compute; reflexivity|].
    cbv [NUM_PRISONERS four_prisoners]. lia. }
  split; [exact Hb|]. split; [exact He|].
  refine (proj1 (proj2 (proj2 (proj2
            (@RunRandom_counts_first_K four_prisoners lcg_random
               lcg_random_spec [1; 0; 3; 2] 7 _ Hb)) 0 He))).
  cbv [NUM_PRISONERS four_prisoners]. lia.
Defined.

(** C6 as it is written fails for a generator that meets the contract of
    the library: with the seed 0 the first search order of four boxes is
    [2, 1, 0, 3]; on the boxes [1, 2, 0, 3] prisoner 0 finds the number in
    box 2, the first box opened, and opens no second box. *)
Lemma RunRandom_stops_at_first_hit :
  @search_order_of four_prisoners lcg_random 0 0 = [2; 1; 0; 3]
  ∧ @opens_random four_prisoners lcg_random 0 [1; 2; 0; 3] 0 = [2]
  ∧ ¬ (∀ boxes seed p,
         bijection_on 4 boxes →
         @evaluated_random four_prisoners lcg_random seed boxes p →
         @opens_random four_prisoners lcg_random seed boxes p
         = take 2 (@search_order_of four_prisoners lcg_random seed p)).
Proof.
  assert (@opens_random four_prisoners lcg_random 0 [1; 2; 0; 3] 0 = [2])
    as Hopens by (vm_compute; reflexivity).
  split_and!; [by vm_compute|done|].
  intros Hclaim. specialize (Hclaim [1; 2; 0; 3] 0 0).
  rewrite Hopens in Hclaim.
  assert ([2] = take 2 [2; 1; 0; 3]) as Habs; [|discriminate].
  apply Hclaim.
  - apply bijection_on_dec_Permutation; [lia|]. vm_compute. reflexivity.
  - eexists. split; [vm_compute; reflexivity|].
    cbv [NUM_PRISONERS four_prisoners]. lia.
Qed.

Lemma strategies_short_circuit_witness :
  bijection_on 4 [1; 2; 0; 3]
  ∧ ¬ returns_within 2 [1; 2; 0; 3] 0
  ∧ ∃ r, call_on (@RunMethod four_prisoners 0) [1; 2; 0; 3]
         = Some (r, [1; 2; 0; 3])
         ∧ 0 ≤ r ≤ 0 ∧ r < 4.
Proof.
  assert (bijection_on 4 [1; 2; 0; 3]) as Hb.
  { apply bijection_on_dec_Permutation; [lia|]. vm_compute. reflexivity. }
  assert (¬ returns_within 2 [1; 2; 0; 3] 0) as Hfail.
  { intros (j & Hj0 & Hj2 & Hf).
    destruct j as [|[|[|j]]]; [lia|discriminate Hf|discriminate Hf|lia]. }
  split; [exact Hb|]. split; [exact Hfail|].
  refine (proj1 (proj2 (@strategies_short_circuit four_prisoners lcg_random
                          lcg_random_spec [1; 2; 0; 3] 7 _ Hb)) 0 _ Hfail).
  - cbv [NUM_PRISONERS four_prisoners]. lia.
  - cbv [NUM_PRISONERS four_prisoners]. lia.
Defined.

(** ** The claims about [Run] *)

Section Run_claims.
Context `{Config} `{StdRandom} `{!StdRandomSpec}.

(** C9. Neither strategy writes to the boxes: whatever [RunRandom] and
    [RunMethod] return, the entries of the buffer are the ones they were
    given.  In a trial both therefore see the vector [RandomiseBoxes] left,
    both return on it, and that vector is the state of [boxes] when the
    iteration ends and the next one shuffles it again. *)
Theorem strategies_leave_boxes :
  (∀ succeed seed buf r buf',
     RunRandom succeed seed buf = Some (r, buf') → buf'.1 = buf.1)
  ∧ (∀ succeed buf r buf',
       RunMethod succeed buf = Some (r, buf') → buf'.1 = buf.1)
  ∧ (∀ it won boxes arr boxes' arr',
       Run_trial it won boxes arr = Some (boxes', arr') →
       boxes' = RandomiseBoxes boxes it)
  ∧ (0 ≤ NUM_PRISONERS < 2 ^ 16 →
     ∀ it boxes,
       bijection_on NUM_PRISONERS boxes →
       let b := RandomiseBoxes boxes it in
       ∃ r m,
         call_on (RunRandom 0 it) b = Some (r, b)
         ∧ call_on (RunMethod 0) b = Some (m, b)
         ∧ ∀ won arr n,
             0 ≤ won → won + 1 < Z.of_nat (length arr) → uint64_array arr →
             ∃ arr',
               Run_trial it won boxes arr = Some (b, arr')
               ∧ Run_for (S n) it won boxes arr
                 = Run_for n (it + 1) won b arr').
Proof.
  split_and!.
  - intros s seed buf r buf'. apply RunRandom_loop_frame.
  - intros s buf r buf'. apply RunMethod_loop_frame.
  - intros it won boxes arr boxes' arr'. unfold Run_trial.
    destruct (call_on (RunRandom 0 it) (RandomiseBoxes boxes it))
      as [[r b1]|] eqn:Hr; [|done].
    apply RunRandom_frame in Hr as ->. simpl.
    destruct (call_on (RunMethod 0) (RandomiseBoxes boxes it))
      as [[m b2]|] eqn:Hm; [|done].
    apply RunMethod_frame in Hm as ->. simpl.
    intros Hrest.
    repeat match type of Hrest with
           | context [decide ?P] => destruct (decide P)
           end;
      simplify_option_eq; done.
  - intros HP it boxes Hbij b.
    apply bijection_on_Permutation in Hbij; [|lia].
    destruct (Run_trial_spec it boxes HP Hbij) as (r & m & Hr & Hm & Htrial).
    exists r, m. split_and!; [done..|].
    intros won arr n Hwon Hlen Harr. eexists. split; [by apply Htrial|].
    cbn [Run_for]. rewrite Htrial by done. done.
Qed.

(** The vector a call of [Run] evaluates in trial [t]. *)
Lemma trial_boxes_foldl startVal t :
  0 ≤ NUM_PRISONERS < 2 ^ 16 →
  startVal ≤ t →
  trial_boxes startVal t
  = Some (foldl RandomiseBoxes (iota NUM_BOXES)
            (seqZ startVal (t - startVal + 1))).
Proof.
  intros HP Hle. unfold trial_boxes, NUM_BOXES.
  destruct (Run_for_spec (Z.to_nat (t - startVal)) startVal
              (iota NUM_PRISONERS) HP) as (r & m & _ & _ & Hrun); [done|].
  rewrite (Hrun 0 [0; 0]); [|lia|simpl; lia|apply (uint64_array_zeros 2)].
  simpl. f_equal.
  rewrite seqZ_app by lia. rewrite foldl_app.
  replace (Z.of_nat (Z.to_nat (t - startVal))) with (t - startVal) by lia.
  replace (startVal + (t - startVal)) with t by lia.
  rewrite (seqZ_cons t 1) by lia. by rewrite (seqZ_nil (Z.succ t)) by lia.
Qed.

Lemma foldl_RandomiseBoxes_Permutation boxes seeds :
  foldl RandomiseBoxes boxes seeds ≡ₚ boxes.
Proof.
  revert boxes. induction seeds as [|seed seeds IH]; intros boxes; [done|].
  simpl. rewrite IH. apply RandomiseBoxes_Permutation.
Qed.

(** C4. [RandomiseBoxes] keeps a bijection on [[0,P)] a bijection on
    [[0,P)], for every seed; and since [Run] starts from the identity,
    the vector of every trial of every call of [Run] is a bijection. *)
Theorem RandomiseBoxes_bijection :
  (∀ seed boxes,
     bijection_on NUM_PRISONERS boxes →
     bijection_on NUM_PRISONERS (RandomiseBoxes boxes seed))
  ∧ (0 ≤ NUM_PRISONERS < 2 ^ 16 →
     ∀ startVal t, startVal ≤ t →
       ∃ boxes, trial_boxes startVal t = Some boxes
                ∧ bijection_on NUM_PRISONERS boxes).
Proof.
  split.
  - intros seed boxes Hbij.
    assert (0 ≤ NUM_PRISONERS) as HP by (destruct Hbij as [<- _]; lia).
    apply bijection_on_Permutation; [done|].
    rewrite RandomiseBoxes_Permutation. by apply bijection_on_Permutation.
  - intros HP startVal t Hle. eexists. split; [by apply trial_boxes_foldl|].
    apply bijection_on_Permutation; [lia|].
    by rewrite foldl_RandomiseBoxes_Permutation.
Qed.

(** C2, as amended. The generator of trial [t] is seeded with [t] alone,
    but it shuffles the vector in place: the permutation of trial [t] in a
    call of [Run] whose range starts at [startVal] is the identity shuffled
    with the seeds [startVal], [startVal + 1], ..., [t], one after the
    other.  It is the shuffle with seed [t] of the identity when the range
    starts at [t], and of the permutation of trial [t - 1] otherwise. *)
Theorem trial_boxes_from_start (startVal t : Z) :
  0 ≤ NUM_PRISONERS < 2 ^ 16 →
  startVal ≤ t →
  trial_boxes startVal t
  = Some (foldl RandomiseBoxes (iota NUM_BOXES)
            (seqZ startVal (t - startVal + 1)))
  ∧ trial_boxes t t
    = Some (shuffle (iota NUM_BOXES) (mt19937_64_seed t)).1
  ∧ (startVal < t →
     ∃ previous,
       trial_boxes startVal (t - 1) = Some previous
       ∧ trial_boxes startVal t
         = Some (shuffle previous (mt19937_64_seed t)).1).
Proof.
  intros HP Hle. split_and!.
  - by apply trial_boxes_foldl.
  - rewrite trial_boxes_foldl by lia.
    replace (t - t + 1) with 1 by lia.
    rewrite (seqZ_cons t 1) by lia. by rewrite (seqZ_nil (Z.succ t)) by lia.
  - intros Hlt. eexists. split; [apply trial_boxes_foldl; lia|].
    rewrite trial_boxes_foldl by lia. f_equal.
    replace (t - startVal + 1) with ((t - 1 - startVal + 1) + 1) by lia.
    rewrite seqZ_app by lia. rewrite foldl_app.
    replace (startVal + (t - 1 - startVal + 1)) with t by lia.
    rewrite (seqZ_cons t 1) by lia. by rewrite (seqZ_nil (Z.succ t)) by lia.
Qed.
End Run_claims.

Lemma strategies_leave_boxes_witness :
  @RunMethod four_prisoners 0 ([1; 0; 3; 2], [])
  = Some (4, ([1; 0; 3; 2], [0; 0; 1; 1; 1; 0; 2; 2; 3; 3; 3; 2]))
  ∧ ([1; 0; 3; 2], [0; 0; 1; 1; 1; 0; 2; 2; 3; 3; 3; 2]).1
    = ([1; 0; 3; 2], @nil Z).1.
Proof.
  assert (@RunMethod four_prisoners 0 ([1; 0; 3; 2], [])
          = Some (4, ([1; 0; 3; 2], [0; 0; 1; 1; 1; 0; 2; 2; 3; 3; 3; 2])))
    as Hrun by (vm_compute; reflexivity).
  split; [exact Hrun|].
  exact (proj1 (proj2 (@strategies_leave_boxes four_prisoners lcg_random
                         lcg_random_spec))
           0 ([1; 0; 3; 2], []) 4 _ Hrun).
Defined.

Lemma RandomiseBoxes_bijection_witness :
  bijection_on 4 [1; 0; 3; 2]
  ∧ bijection_on 4 (@RandomiseBoxes lcg_random [1; 0; 3; 2] 5).
Proof.
  assert (bijection_on 4 [1; 0; 3; 2]) as Hb.
  { apply bijection_on_dec_Permutation; [lia|]. vm_compute. reflexivity. }
  split; [exact Hb|].
  exact (proj1 (@RandomiseBoxes_bijection four_prisoners lcg_random
                  lcg_random_spec) 5 [1; 0; 3; 2] Hb).
Defined.

Lemma trial_boxes_from_start_witness :
  0 ≤ 4 < 2 ^ 16 ∧ 0 ≤ 1
  ∧ @trial_boxes four_prisoners lcg_random 0 1
    = Some (foldl (@RandomiseBoxes lcg_random) (iota 4) (seqZ 0 (1 - 0 + 1))).
Proof.
  split; [lia|]. split; [lia|].
  refine (proj1 (@trial_boxes_from_start four_prisoners lcg_random
                   lcg_random_spec 0 1 _ _)).
  - cbv [NUM_PRISONERS four_prisoners]. lia.
  - lia.
Defined.

(** C2 as it is written fails for a generator that meets the contract of
    the library: with four boxes, the call of [Run] that starts at trial 0
    and the call that starts at trial 1 evaluate trial 1 on different
    permutations, [1, 3, 2, 0] and [1, 3, 0, 2]. *)
Lemma trial_boxes_depend_on_start :
  @trial_boxes four_prisoners lcg_random 0 1 = Some [1; 3; 2; 0]
  ∧ @trial_boxes four_prisoners lcg_random 1 1 = Some [1; 3; 0; 2]
  ∧ ¬ (∀ startVal1 startVal2 t,
         startVal1 ≤ t → startVal2 ≤ t →
         @trial_boxes four_prisoners lcg_random startVal1 t
         = @trial_boxes four_prisoners lcg_random startVal2 t).
Proof.
  assert (@trial_boxes four_prisoners lcg_random 0 1 = Some [1; 3; 2; 0])
    as H0 by (vm_compute; reflexivity).
  assert (@trial_boxes four_prisoners lcg_random 1 1 = Some [1; 3; 0; 2])
    as H1 by (vm_compute; reflexivity).
  split_and!; [done..|].
  intros Hclaim. specialize (Hclaim 0 1 1 ltac:(lia) ltac:(lia)).
  rewrite H0, H1 in Hclaim. discriminate.
Qed.

(** ** The claims about [main] *)

Lemma threads_lookup n i stepSize (k : nat) :
  (k < n)%nat →
  threads n i stepSize !! k
  = Some (stepSize * (i + Z.of_nat k), stepSize * (i + Z.of_nat k + 1),
          (i + Z.of_nat k) * 2).
Proof.
  revert i k. induction n as [|n IH]; intros i [|k] Hk; try lia.
  - simpl. by rewrite Z.add_0_r.
  - simpl. rewrite IH by lia. do 3 f_equal; lia.
Qed.

Lemma length_threads n i stepSize : length (threads n i stepSize) = n.
Proof. revert i. induction n as [|n IH]; intros i; simpl; [done|]. by rewrite IH. Qed.

(** The threads have counters of their own: the slots of two different
    threads are different. *)
Lemma threads_slots_disjoint n stepSize (j k : nat) cj ck slot :
  threads n 0 stepSize !! j = Some cj →
  threads n 0 stepSize !! k = Some ck →
  slot ∈ slots cj → slot ∈ slots ck → j = k.
Proof.
  intros Hj Hk.
  pose proof (lookup_lt_Some _ _ _ Hj) as Hjn.
  pose proof (lookup_lt_Some _ _ _ Hk) as Hkn.
  rewrite length_threads in Hjn, Hkn.
  rewrite threads_lookup in Hj, Hk by done.
  injection Hj as <-. injection Hk as <-. simpl.
  rewrite !elem_of_cons, !elem_of_nil. lia.
Qed.

(** The slot [processor_count] of the remainder run is a slot of the
    thread [processor_count / 2]. *)
Lemma remainder_slot_shared `{Config} processor_count stepSize :
  1 ≤ processor_count →
  ∃ c, threads (Z.to_nat processor_count) 0 stepSize
         !! Z.to_nat (processor_count / 2) = Some c
       ∧ processor_count ∈ slots c
       ∧ processor_count ∈ slots (remainder processor_count stepSize).
Proof.
  intros Hpc.
  assert (0 ≤ processor_count / 2 < processor_count) as Hhalf.
  { split; [apply Z.div_pos; lia|apply Z.div_lt_upper_bound; lia]. }
  eexists. split; [apply threads_lookup; lia|]. simpl.
  rewrite !elem_of_cons, !elem_of_nil.
  pose proof (Z.div_mod processor_count 2 ltac:(lia)) as Hdm.
  pose proof (Z.mod_pos_bound processor_count 2 ltac:(lia)) as Hm.
  split; lia.
Qed.

(** C3 fails on the code.  With [processor_count = 3] the calls are these
    four; the remainder run is given [&won[3]], so it counts in the slots
    3 and 4: slot 3 is the second counter of thread 1 and slot 4 the first
    counter of thread 2. *)
Theorem remainder_shares_counters :
  @calls source_config 3
  = [(0, 333333, 0); (333333, 666666, 2); (666666, 999999, 4);
     (999999, 1000000, 3)]
  ∧ map slots (@calls source_config 3) = [[0; 1]; [2; 3]; [4; 5]; [3; 4]]
  ∧ 3 ∈ slots (333333, 666666, 2) ∧ 3 ∈ slots (999999, 1000000, 3)
  ∧ 4 ∈ slots (666666, 999999, 4) ∧ 4 ∈ slots (999999, 1000000, 3).
Proof.
  split_and!; [by vm_compute..| | | |]; simpl;
    rewrite !elem_of_cons; lia.
Qed.

(** *** The sums of the even and of the odd slots *)

Lemma sums_insert arr (k : nat) v v' :
  arr !! k = Some v →
  sums (<[k := v']> arr)
  = if Nat.even k then ((sums arr).1 + (v' - v), (sums arr).2)
    else ((sums arr).1, (sums arr).2 + (v' - v)).
Proof.
  revert k. induction arr as [|x arr IH]; intros [|k] Hk; try done.
  - injection Hk as ->. simpl. destruct (sums arr) as [e o]. simpl.
    f_equal. lia.
  - cbn [lookup list_lookup] in Hk. specialize (IH k Hk).
    change (<[S k := v']> (x :: arr)) with (x :: <[k := v']> arr).
    cbn [sums]. rewrite IH. rewrite Nat.even_succ, <- Nat.negb_even.
    destruct (sums arr) as [e o], (Nat.even k); simpl; f_equal; lia.
Qed.

Lemma sums_bump arr idx d :
  0 ≤ idx < Z.of_nat (length arr) →
  ∃ δ, uint64 δ = uint64 d
       ∧ sums (bump arr idx d)
         = if Z.even idx then ((sums arr).1 + δ, (sums arr).2)
           else ((sums arr).1, (sums arr).2 + δ).
Proof.
  intros Hidx. destruct (read_in_range arr idx Hidx) as [v Hv].
  unfold bump. rewrite Hv. apply read_Some in Hv as [_ Hv].
  exists (uint64 (v + d) - v). split.
  - unfold uint64. rewrite Zminus_mod_idemp_l. f_equal. lia.
  - rewrite (sums_insert _ _ v) by done.
    replace (Nat.even (Z.to_nat idx)) with (Z.even idx); [done|].
    rewrite <- (Z2Nat.id idx) at 1 by lia.
    generalize (Z.to_nat idx). intros k.
    rewrite <- Nat.negb_odd, <- Z.negb_odd. f_equal.
    induction k as [|k IH]; [done|].
    rewrite Nat2Z.inj_succ, Z.odd_succ, Nat.odd_succ.
    by rewrite <- Z.negb_odd, <- Nat.negb_odd, IH.
Qed.

Lemma uint64_add_l x x' y : uint64 x = uint64 x' → uint64 (x + y) = uint64 (x' + y).
Proof.
  unfold uint64. intros Hx.
  rewrite (Z.add_mod x), (Z.add_mod x') by lia. by rewrite Hx.
Qed.

Lemma uint64_credit_exact a b x y :
  uint64 x = uint64 y → uint64 (a + x + b) = uint64 (a + (y + b)).
Proof.
  intros Hxy. replace (a + x + b) with (x + (a + b)) by lia.
  replace (a + (y + b)) with (y + (a + b)) by lia.
  by apply uint64_add_l.
Qed.

(** *** "add up all wins" *)

Lemma merge_spec n i won w0 w1 :
  2 ≤ i → Z.of_nat (length won) = i + 2 * Z.of_nat n →
  read won 0 = Some w0 → read won 1 = Some w1 →
  ∃ won',
    merge n i won = Some won'
    ∧ read won' 0
      = Some (if n is O then w0
              else uint64 (w0 + (sums (drop (Z.to_nat i) won)).1))
    ∧ read won' 1
      = Some (if n is O then w1
              else uint64 (w1 + (sums (drop (Z.to_nat i) won)).2)).
Proof.
  revert i won w0 w1. induction n as [|n IH]; intros i won w0 w1 Hi Hlen H0 H1.
  - exists won. done.
  - destruct (read_in_range won i) as [a Ha]; [lia|].
    destruct (read_in_range won (i + 1)) as [b Hb]; [lia|].
    set (won2 := <[1%nat := uint64 (w1 + b)]>
                   (<[0%nat := uint64 (w0 + a)]> won)).
    assert (merge (S n) i won = merge n (i + 2) won2) as ->.
    { cbn [merge]. rewrite Ha, H0. cbn [mbind option_bind].
      rewrite !read_insert_ne by lia. rewrite Hb, H1. done. }
    assert (length won2 = length won) as Hlen2
      by (unfold won2; by rewrite !length_insert).
    assert (read won2 0 = Some (uint64 (w0 + a))) as H0'.
    { unfold won2. rewrite read_insert_ne by lia.
      apply read_Some. split; [lia|].
      apply list_lookup_insert_eq. lia. }
    assert (read won2 1 = Some (uint64 (w1 + b))) as H1'.
    { unfold won2. apply read_Some. split; [lia|].
      apply list_lookup_insert_eq. rewrite length_insert. lia. }
    assert (drop (Z.to_nat (i + 2)) won2 = drop (Z.to_nat (i + 2)) won)
      as Hdrop.
    { unfold won2. rewrite !drop_insert_lt by lia. done. }
    destruct (IH (i + 2) won2 _ _ ltac:(lia) ltac:(lia) H0' H1')
      as (won' & -> & Hr0 & Hr1).
    exists won'. split; [done|].
    assert (drop (Z.to_nat i) won
            = a :: b :: drop (Z.to_nat (i + 2)) won) as Hsplit.
    { apply read_Some in Ha as [_ Ha]. apply read_Some in Hb as [_ Hb].
      rewrite (drop_S _ a _ Ha).
      replace (Z.to_nat (i + 1)) with (S (Z.to_nat i)) in Hb by lia.
      rewrite (drop_S _ b _ Hb). do 3 f_equal. lia. }
    rewrite Hsplit. cbn [sums].
    destruct (sums (drop (Z.to_nat (i + 2)) won)) as [e o] eqn:Hs.
    rewrite Hdrop, Hs in Hr0, Hr1. cbn [fst snd] in *.
    rewrite Hr0, Hr1. destruct n as [|n].
    + split; do 2 f_equal.
      * rewrite drop_ge in Hs by lia. injection Hs as <- <-. lia.
      * rewrite drop_ge in Hs by lia. injection Hs as <- <-. lia.
    + rewrite !uint64_uint64_add. split; do 2 f_equal; lia.
Qed.

(** *** The calls of [Run] *)

Lemma total_cons w l :
  total (w :: l) = (w.1 + (total l).1, w.2 + (total l).2).
Proof. done. Qed.

Lemma total_app l1 l2 :
  total (l1 ++ l2)
  = ((total l1).1 + (total l2).1, (total l1).2 + (total l2).2).
Proof.
  induction l1 as [|w l1 IH].
  - simpl. by destruct (total l2).
  - rewrite <- app_comm_cons, !total_cons, IH. simpl. f_equal; lia.
Qed.

Section main_facts.
Context `{Config} `{StdRandom} `{!StdRandomSpec}.

(** A call of [Run] adds its numbers of successes to the two counters it
    is given, wherever they are; on counters of its own these numbers are
    what it leaves. *)
Lemma run_call_spec c :
  0 ≤ NUM_PRISONERS < 2 ^ 16 →
  ∃ r m,
    0 ≤ r ≤ Z.of_nat (length (trials c))
    ∧ 0 ≤ m ≤ Z.of_nat (length (trials c))
    ∧ worker_wins c = Some [uint64 r; uint64 m]
    ∧ ∀ arr,
        0 ≤ c.2 → c.2 + 1 < Z.of_nat (length arr) → uint64_array arr →
        run_call c arr = Some (bump (bump arr c.2 r) (c.2 + 1) m).
Proof.
  intros HP. destruct c as [[startVal endVal] won].
  destruct (Run_for_spec (Z.to_nat (endVal - startVal)) startVal
              (iota NUM_BOXES) HP) as (r & m & Hr & Hm & Hrun); [done|].
  exists r, m. unfold trials. rewrite length_seqZ. split_and!; [lia..| |].
  - unfold worker_wins, Run. rewrite (Hrun 0 [0; 0]);
      [|lia|simpl; lia|apply (uint64_array_zeros 2)].
    done.
  - intros arr Hwon Hlen Harr. unfold run_call, Run.
    by rewrite Hrun.
Qed.

(** The success counts of a call are at most the number of its trials. *)
Lemma wins_of_spec c :
  0 ≤ NUM_PRISONERS < 2 ^ 16 →
  Z.of_nat (length (trials c)) < 2 ^ 64 →
  worker_wins c = Some [(wins_of c).1; (wins_of c).2]
  ∧ 0 ≤ (wins_of c).1 ≤ Z.of_nat (length (trials c))
  ∧ 0 ≤ (wins_of c).2 ≤ Z.of_nat (length (trials c))
  ∧ ∀ arr,
      0 ≤ c.2 → c.2 + 1 < Z.of_nat (length arr) → uint64_array arr →
      run_call c arr
      = Some (bump (bump arr c.2 (wins_of c).1) (c.2 + 1) (wins_of c).2).
Proof.
  intros HP Hlen.
  destruct (run_call_spec c HP) as (r & m & Hr & Hm & Hwins & Hcall).
  unfold wins_of. rewrite Hwins. cbn [fst snd]. unfold uint64.
  rewrite !Z.mod_small by lia. done.
Qed.

(** The calls run one after the other: the sums over the even and over
    the odd slots grow, modulo [2^64], by the success counts of the calls
    as they are credited. *)
Lemma run_calls_spec cs arr :
  0 ≤ NUM_PRISONERS < 2 ^ 16 →
  Forall (λ c : call, 0 ≤ c.2 ∧ c.2 + 1 < Z.of_nat (length arr)
                      ∧ Z.of_nat (length (trials c)) < 2 ^ 64) cs →
  uint64_array arr →
  ∃ arr',
    run_calls cs arr = Some arr'
    ∧ length arr' = length arr
    ∧ uint64_array arr'
    ∧ uint64 (sums arr').1
      = uint64 ((sums arr).1 + (total (credit_of <$> cs)).1)
    ∧ uint64 (sums arr').2
      = uint64 ((sums arr).2 + (total (credit_of <$> cs)).2).
Proof.
  intros HP Hcs. revert arr Hcs.
  induction cs as [|c cs IH]; intros arr Hcs Harr.
  - exists arr. simpl. rewrite !Z.add_0_r. split_and!; done.
  - apply Forall_cons in Hcs as [(Hc0 & Hc1 & Hc2) Hcs].
    destruct (wins_of_spec c HP Hc2) as (_ & _ & _ & Hcall).
    rewrite fmap_cons, total_cons.
    change (credit_of c) with (credited c (wins_of c)).
    destruct (wins_of c) as [r m]. cbn [fst snd] in Hcall.
    set (arr1 := bump (bump arr c.2 r) (c.2 + 1) m).
    assert (length arr1 = length arr) as Hlen1
      by (unfold arr1; by rewrite !length_bump).
    assert (uint64_array arr1) as Harr1
      by (unfold arr1; by repeat apply uint64_array_bump).
    destruct (IH arr1) as (arr' & Hrun & Hlen & Harr' & He & Ho);
      [by rewrite Hlen1|done|].
    exists arr'.
    split_and!; [|congruence|done|..].
    { cbn [run_calls]. rewrite Hcall by done. done. }
    all: rewrite ?He, ?Ho.
    all: destruct (sums_bump arr c.2 r) as (δr & Hδr & Hsr); [lia|].
    all: destruct (sums_bump (bump arr c.2 r) (c.2 + 1) m)
           as (δm & Hδm & Hsm); [rewrite length_bump; lia|].
    all: fold arr1 in Hsm; rewrite Hsm, Hsr.
    all: destruct c as [[startVal endVal] won]; cbn [snd credited] in *.
    all: rewrite Z.even_add; change (Z.even 1) with false.
    all: destruct (Z.even won); cbn [fst snd Bool.eqb].
    all: by apply uint64_credit_exact.
Qed.
Lemma sums_zeros n : sums (replicate n 0) = (0, 0).
Proof. induction n as [|n IH]; [done|]. simpl. by rewrite IH. Qed.

Lemma total_Permutation l1 l2 : l1 ≡ₚ l2 → total l1 = total l2.
Proof.
  induction 1 as [|w l1 l2 _ IH|w1 w2 l|l1 l2 l3 _ IH1 _ IH2].
  - done.
  - by rewrite !total_cons, IH.
  - rewrite !total_cons. simpl. f_equal; lia.
  - congruence.
Qed.

(** The success counts that are credited are at most the number of
    trials. *)
Lemma total_credit_bound cs :
  0 ≤ NUM_PRISONERS < 2 ^ 16 →
  Forall (λ c : call, Z.of_nat (length (trials c)) < 2 ^ 64) cs →
  0 ≤ (total (credit_of <$> cs)).1 ≤ Z.of_nat (length (concat (trials <$> cs)))
  ∧ 0 ≤ (total (credit_of <$> cs)).2
      ≤ Z.of_nat (length (concat (trials <$> cs))).
Proof.
  intros HP. induction 1 as [|c cs Hc _ IH]; [simpl; lia|].
  rewrite !fmap_cons, total_cons. cbn [concat]. rewrite length_app.
  destruct (wins_of_spec c HP Hc) as (_ & Hr & Hm & _).
  change (credit_of c) with (credited c (wins_of c)).
  destruct c as [[startVal endVal] won].
  cbn [credited]. destruct (Z.even won); cbn [fst snd]; lia.
Qed.

(** [main] with the calls run to completion in any order: the result is
    the total of the success counts of the calls as they are credited,
    modulo [2^64]. *)
Lemma main_scheduled_spec processor_count schedule :
  0 ≤ NUM_PRISONERS < 2 ^ 16 →
  1 ≤ processor_count →
  Forall (λ c : call, 0 ≤ c.2 ∧ c.2 + 1 < (processor_count + 1) * 2
                      ∧ Z.of_nat (length (trials c)) < 2 ^ 64) schedule →
  main_scheduled processor_count schedule
  = Some (uint64 (total (credit_of <$> schedule)).1,
          uint64 (total (credit_of <$> schedule)).2).
Proof.
  intros HP Hpc Hvalid. unfold main_scheduled.
  set (won := replicate (Z.to_nat ((processor_count + 1) * 2)) 0).
  assert (Z.of_nat (length won) = (processor_count + 1) * 2) as Hlen
    by (unfold won; rewrite length_replicate; lia).
  destruct (run_calls_spec schedule won HP)
    as (won1 & -> & Hlen1 & Hwon1 & He & Ho).
  { by rewrite Hlen. }
  { apply uint64_array_zeros. }
  unfold won in He, Ho. rewrite sums_zeros in He, Ho.
  cbn [fst snd] in He, Ho. rewrite !Z.add_0_l in He, Ho.
  cbn [mbind option_bind].
  destruct (read_in_range won1 0) as [w0 Hw0]; [lia|].
  destruct (read_in_range won1 1) as [w1 Hw1]; [lia|].
  destruct (merge_spec (Z.to_nat processor_count) 2 won1 w0 w1)
    as (won2 & -> & Hr0 & Hr1); [lia|lia|done..|].
  cbn [mbind option_bind]. rewrite Hr0. cbn [mbind option_bind]. rewrite Hr1.
  cbn [mbind option_bind].
  destruct (Z.to_nat processor_count) as [|n] eqn:Hn; [lia|].
  assert (won1 = w0 :: w1 :: drop (Z.to_nat 2) won1) as Hsplit.
  { apply read_Some in Hw0 as [_ Hw0]. apply read_Some in Hw1 as [_ Hw1].
    destruct won1 as [|x [|y rest]]; try done.
    injection Hw0 as ->. injection Hw1 as ->. done. }
  rewrite Hsplit in He, Ho. cbn [sums] in He, Ho.
  destruct (sums (drop (Z.to_nat 2) won1)) as [e o].
  cbn [fst snd] in *. by rewrite He, Ho.
Qed.
End main_facts.

(** *** The partition of the trials *)

Lemma threads_trials n i stepSize :
  0 ≤ stepSize →
  concat (trials <$> threads n i stepSize)
  = seqZ (stepSize * i) (stepSize * Z.of_nat n).
Proof.
  intros Hstep. revert i. induction n as [|n IH]; intros i.
  - simpl. by rewrite seqZ_nil by lia.
  - cbn [threads fmap list_fmap concat]. rewrite IH. cbn [trials].
    replace (stepSize * Z.of_nat (S n))
      with (stepSize + stepSize * Z.of_nat n) by lia.
    rewrite seqZ_app by nia. f_equal; [f_equal; lia|]. f_equal. lia.
Qed.

Section calls_facts.
Context `{Config}.

(** The ranges of the threads and of the remainder run, one after the
    other, are the trials [0 .. NUM_ITERATIONS - 1]: every trial is in
    exactly one call. *)
Lemma calls_trials processor_count :
  1 ≤ processor_count → 0 ≤ NUM_ITERATIONS →
  concat (trials <$> calls processor_count) = seqZ 0 NUM_ITERATIONS.
Proof.
  intros Hpc HN. unfold calls.
  set (stepSize := NUM_ITERATIONS / processor_count).
  assert (0 ≤ stepSize) as Hstep by (apply Z.div_pos; lia).
  pose proof (Z.mul_div_le NUM_ITERATIONS processor_count ltac:(lia)) as Hle.
  fold stepSize in Hle.
  rewrite fmap_app, concat_app, threads_trials by done.
  cbn [fmap list_fmap concat remainder trials]. rewrite app_nil_r.
  rewrite Z.mul_0_r, Z2Nat.id by lia.
  rewrite <- (Z.add_0_l (stepSize * processor_count)) at 2.
  rewrite <- seqZ_app by lia. f_equal. lia.
Qed.

Lemma calls_valid processor_count :
  1 ≤ processor_count → 0 ≤ NUM_ITERATIONS < 2 ^ 63 →
  Forall (λ c : call, 0 ≤ c.2 ∧ c.2 + 1 < (processor_count + 1) * 2
                      ∧ Z.of_nat (length (trials c)) < 2 ^ 64)
    (calls processor_count).
Proof.
  intros Hpc HN. unfold calls.
  set (stepSize := NUM_ITERATIONS / processor_count).
  assert (0 ≤ stepSize ≤ NUM_ITERATIONS) as Hstep.
  { split; [apply Z.div_pos; lia|]. apply Z.div_le_upper_bound; nia. }
  pose proof (Z.mul_div_le NUM_ITERATIONS processor_count ltac:(lia)) as Hle.
  fold stepSize in Hle.
  apply Forall_app. split.
  - apply Forall_lookup. intros k c Hk.
    pose proof (lookup_lt_Some _ _ _ Hk) as Hlt.
    rewrite length_threads in Hlt.
    rewrite threads_lookup in Hk by done. injection Hk as <-.
    cbn [snd trials]. rewrite length_seqZ. split_and!; [lia|lia|]. nia.
  - apply Forall_singleton. cbn [remainder snd trials].
    rewrite length_seqZ. lia.
Qed.

(** The threads are credited with their success counts as they are. *)
Lemma threads_credited_even n i stepSize c :
  c ∈ threads n i stepSize → ∀ w, credited c w = w.
Proof.
  intros [k Hk]%list_elem_of_lookup w.
  pose proof (lookup_lt_Some _ _ _ Hk) as Hlt.
  rewrite length_threads in Hlt.
  rewrite threads_lookup in Hk by done. injection Hk as <-.
  cbn [credited]. by rewrite Z.even_mul, orb_true_r.
Qed.
End calls_facts.

(** *** The totals [main] prints *)

Section main_totals.
Context `{Config} `{StdRandom} `{!StdRandomSpec}.

(** [main] returns the total of the success counts as they are credited. *)
Lemma main_spec processor_count :
  0 ≤ NUM_PRISONERS < 2 ^ 16 →
  1 ≤ processor_count →
  0 ≤ NUM_ITERATIONS < 2 ^ 63 →
  main_with processor_count = Some (total (credit_of <$> calls processor_count)).
Proof.
  intros HP Hpc HN. unfold main_with.
  pose proof (calls_valid processor_count Hpc HN) as Hvalid.
  rewrite main_scheduled_spec by done.
  destruct (total_credit_bound (calls processor_count) HP) as [He Ho].
  { eapply Forall_impl; [exact Hvalid|]. by intros c (_ & _ & ?). }
  rewrite calls_trials, length_seqZ in He, Ho by lia.
  unfold uint64. rewrite !Z.mod_small by lia.
  by destruct (total _).
Qed.

(** The order in which the calls run to completion does not matter. *)
Lemma main_any_order processor_count schedule :
  0 ≤ NUM_PRISONERS < 2 ^ 16 →
  1 ≤ processor_count →
  0 ≤ NUM_ITERATIONS < 2 ^ 63 →
  schedule ≡ₚ calls processor_count →
  main_scheduled processor_count schedule = main_with processor_count.
Proof.
  intros HP Hpc HN Hperm. unfold main_with.
  pose proof (calls_valid processor_count Hpc HN) as Hvalid.
  rewrite !main_scheduled_spec; [|done..|by rewrite Hperm].
  by rewrite (total_Permutation (credit_of <$> schedule)
                (credit_of <$> calls processor_count))
    by by apply fmap_Permutation.
Qed.

Lemma total_threads_credit n i stepSize :
  total (credit_of <$> threads n i stepSize)
  = total (wins_of <$> threads n i stepSize).
Proof.
  f_equal. apply list_fmap_ext. intros k c Hc.
  apply (threads_credited_even n i stepSize).
  by eapply list_elem_of_lookup_2.
Qed.

(** With an even number of threads the remainder run counts in the slots
    of the thread [processor_count / 2], each strategy in the slot of the
    same strategy: run one after the other, the calls add up to the
    totals of their success counts. *)
Lemma main_even processor_count :
  0 ≤ NUM_PRISONERS < 2 ^ 16 →
  1 ≤ processor_count →
  0 ≤ NUM_ITERATIONS < 2 ^ 63 →
  Z.even processor_count = true →
  main_with processor_count = Some (total (wins_of <$> calls processor_count)).
Proof.
  intros HP Hpc HN Heven. rewrite main_spec by done. f_equal.
  unfold calls. rewrite !fmap_app, !total_app, total_threads_credit.
  cbn [fmap list_fmap]. unfold credit_of, remainder. cbn [credited].
  by rewrite Heven.
Qed.

(** With an odd number of threads the remainder run counts its random
    successes in a slot that is added to the total of the method, and its
    method successes in a slot that is added to the total of the random
    search. *)
Lemma main_odd processor_count :
  0 ≤ NUM_PRISONERS < 2 ^ 16 →
  1 ≤ processor_count →
  0 ≤ NUM_ITERATIONS < 2 ^ 63 →
  Z.even processor_count = false →
  let stepSize := NUM_ITERATIONS / processor_count in
  let t := total (wins_of <$> threads (Z.to_nat processor_count) 0 stepSize) in
  let w := wins_of (remainder processor_count stepSize) in
  main_with processor_count = Some (t.1 + w.2, t.2 + w.1).
Proof.
  intros HP Hpc HN Hodd stepSize t w. rewrite main_spec by done. f_equal.
  unfold calls. rewrite !fmap_app, !total_app, total_threads_credit.
  cbn [fmap list_fmap]. unfold credit_of, remainder. cbn [credited].
  rewrite Hodd. fold stepSize. cbn [total foldr fst snd].
  unfold t, w, remainder. f_equal; lia.
Qed.
End main_totals.

(** With multi-threading there are at least two threads, one for every
    processor but two of them; [hardware_concurrency() - 2] is computed on
    [unsigned int]. *)
Lemma processor_count_multi `{Config} hardware_concurrency :
  USE_MULTI_THREADING = true →
  2 ≤ processor_count hardware_concurrency
  ∧ (4 ≤ hardware_concurrency < 2 ^ 32 →
     processor_count hardware_concurrency = hardware_concurrency - 2).
Proof.
  intros Hmt. unfold processor_count. rewrite Hmt. split; [lia|].
  intros Hhc. unfold uint32. rewrite Z.mod_small by lia. lia.
Qed.

(** C1 fails on the code.  On a machine with five processors there are
    three threads.  With four trials of two prisoners the calls are the
    trials 0, 1 and 2 for the threads and trial 3 for the remainder run,
    and their pairs of success counts are (1,1), (0,0), (1,0) and (0,1),
    which add up to 2 successes of the random search and 2 of the method.
    [main] returns 3 and 1: the success of the method in trial 3 is
    counted in [won[4]], the counter of thread 2 for the random search. *)
Theorem main_miscounts_remainder :
  @processor_count two_prisoners 5 = 3
  ∧ @calls two_prisoners 3 = [(0, 1, 0); (1, 2, 2); (2, 3, 4); (3, 4, 3)]
  ∧ @wins_of two_prisoners lcg_random <$> @calls two_prisoners 3
    = [(1, 1); (0, 0); (1, 0); (0, 1)]
  ∧ total (@wins_of two_prisoners lcg_random <$> @calls two_prisoners 3)
    = (2, 2)
  ∧ @main two_prisoners lcg_random 5 = Some (3, 1).
Proof. split_and!; by vm_compute. Qed.

(** ** [CountBuffer] *)

Section CountBuffer_facts.
Context {T : Type} `{EqDecision T}.

Lemma at_index_Some (buffer : list T) i b :
  at_index buffer i = Some b ↔ 0 ≤ i ∧ buffer !! Z.to_nat i = Some b.
Proof.
  unfold at_index. destruct (decide (0 ≤ i)).
  - split; [done|by intros [_ ?]].
  - split; [done|]. by intros [? _].
Qed.

Lemma at_index_None (buffer : list T) i :
  Z.of_nat (length buffer) ≤ i → at_index buffer i = None.
Proof.
  intros Hi. unfold at_index. rewrite decide_True by lia.
  apply lookup_ge_None. lia.
Qed.

(** The loop from index [i] on, while it stays inside the buffer and below
    [INT_MAX]: the result grows by the number of entries equal to [val]. *)
Lemma CountBuffer_for_spec (buffer : list T) val n (i : nat) result :
  (i + n ≤ length buffer)%nat →
  0 ≤ result → result + Z.of_nat n < 2 ^ 31 →
  CountBuffer_for buffer val n (Z.of_nat i) result
  = Some (result
          + Z.of_nat (length (filter (λ b, b = val) (take n (drop i buffer))))).
Proof.
  revert i result. induction n as [|n IH]; intros i result Hlen Hres Hmax.
  - simpl. f_equal. lia.
  - destruct (lookup_lt_is_Some_2 buffer i) as [b Hb]; [lia|].
    cbn [CountBuffer_for].
    assert (at_index buffer (Z.of_nat i) = Some b) as ->.
    { apply at_index_Some. split; [lia|]. by rewrite Nat2Z.id. }
    cbn [mbind option_bind].
    rewrite (drop_S _ _ _ Hb). cbn [take]. rewrite filter_cons.
    replace (Z.of_nat i + 1) with (Z.of_nat (S i)) by lia.
    destruct (decide (b = val)) as [Heq|Hne].
    + unfold int_incr. rewrite decide_True by lia. cbn [mbind option_bind].
      rewrite IH by lia. cbn [length]. f_equal. lia.
    + cbn [mbind option_bind]. rewrite IH by lia. done.
Qed.

(** Past the end of the buffer the loop has no result. *)
Lemma CountBuffer_for_None (buffer : list T) val n (i : nat) result :
  (i ≤ length buffer < i + n)%nat →
  CountBuffer_for buffer val n (Z.of_nat i) result = None.
Proof.
  revert i result. induction n as [|n IH]; intros i result Hlen; [lia|].
  cbn [CountBuffer_for].
  destruct (decide (i = length buffer)) as [->|Hne].
  - by rewrite at_index_None by lia.
  - destruct (at_index buffer (Z.of_nat i)) as [b|]; [|done].
    cbn [mbind option_bind].
    replace (Z.of_nat i + 1) with (Z.of_nat (S i)) by lia.
    destruct (decide (b = val)); [destruct (int_incr result)|];
      cbn [mbind option_bind]; try done; apply IH; lia.
Qed.

(** X1. [CountBuffer(buffer, val, size)] with [size] at most the number of
    entries of the buffer (and below [2^31], so that the [int] can hold
    the count) reads the first [size] entries and returns how many of them
    are equal to [val], a number between [0] and [size]. *)
Theorem CountBuffer_counts (buffer : list T) (val : T) (size : Z) :
  0 ≤ size ≤ Z.of_nat (length buffer) → size < 2 ^ 31 →
  ∃ result,
    CountBuffer buffer val size = Some result
    ∧ result = Z.of_nat (length (filter (λ b, b = val)
                                   (take (Z.to_nat size) buffer)))
    ∧ 0 ≤ result ≤ size
    ∧ (result = 0 ↔ val ∉ take (Z.to_nat size) buffer).
Proof.
  intros Hsize Hmax. eexists. split; [|split; [reflexivity|]].
  - unfold CountBuffer.
    pose proof (CountBuffer_for_spec buffer val (Z.to_nat size) 0 0) as Hc.
    change (Z.of_nat 0) with 0 in Hc. rewrite Hc by lia.
    by rewrite drop_0, Z.add_0_l.
  - set (l := take (Z.to_nat size) buffer).
    assert (length l ≤ Z.to_nat size)%nat as Hl
      by (unfold l; rewrite length_take; lia).
    pose proof (length_filter (λ b, b = val) l) as Hf. split; [lia|].
    split.
    + intros H0 Hin.
      assert (val ∈ filter (λ b, b = val) l) as Hin'
        by by apply list_elem_of_filter.
      destruct (filter (λ b, b = val) l); [by apply elem_of_nil in Hin'|].
      simpl in H0. lia.
    + intros Hnot. destruct (filter (λ b, b = val) l) as [|b f] eqn:Hfl;
        [done|].
      assert (b ∈ filter (λ b, b = val) l) as Hb
        by (rewrite Hfl; apply elem_of_cons; by left).
      apply list_elem_of_filter in Hb as [-> Hb]. done.
Qed.

(** X2. With [size] larger than the buffer, [CountBuffer] reads past the
    end of the buffer: the loop does not stop at the last entry. *)
Theorem CountBuffer_past_the_end (buffer : list T) (val : T) (size : Z) :
  Z.of_nat (length buffer) < size →
  CountBuffer buffer val size = None.
Proof.
  intros Hsize. unfold CountBuffer.
  pose proof (CountBuffer_for_None buffer val (Z.to_nat size) 0 0) as Hc.
  change (Z.of_nat 0) with 0 in Hc. apply Hc. lia.
Qed.
End CountBuffer_facts.

Lemma CountBuffer_counts_witness :
  ∃ result,
    CountBuffer [3; 1; 3; 2] 3 3 = Some result
    ∧ result = Z.of_nat (length (filter (λ b, b = 3)
                                   (take (Z.to_nat 3) [3; 1; 3; 2])))
    ∧ 0 ≤ result ≤ 3
    ∧ (result = 0 ↔ 3 ∉ take (Z.to_nat 3) [3; 1; 3; 2]).
Proof.
  apply (CountBuffer_counts [3; 1; 3; 2] 3 3); [simpl; lia|lia].
Defined.

Lemma CountBuffer_past_the_end_witness :
  Z.of_nat (length [3; 1; 3; 2]) < 5 ∧ CountBuffer [3; 1; 3; 2] 3 5 = None.
Proof.
  assert (Z.of_nat (length [3; 1; 3; 2]) < 5) as Hsize by (simpl; lia).
  split; [exact Hsize|]. exact (CountBuffer_past_the_end [3; 1; 3; 2] 3 5 Hsize).
Defined.

Lemma length_filter_NoDup (l : list Z) val :
  NoDup l →
  length (filter (λ b, b = val) l) = if decide (val ∈ l) then 1%nat else 0%nat.
Proof.
  induction 1 as [|x l Hx _ IH]; [done|].
  rewrite filter_cons. destruct (decide (x = val)) as [->|Hne].
  - cbn [length]. rewrite IH, decide_False by done.
    rewrite decide_True by (apply elem_of_cons; by left). done.
  - rewrite IH. destruct (decide (val ∈ l)) as [Hin|Hnin].
    + rewrite decide_True by (apply elem_of_cons; by right). done.
    + rewrite decide_False; [done|].
      intros [->|?]%elem_of_cons; done.
Qed.

(** X3. On a [boxes] vector that holds a bijection on [[0,P)],
    [CountBuffer(boxes, val, P)] is [1] for every number [val] of [[0,P)]
    and [0] for every other value: every number is in exactly one box. *)
Theorem CountBuffer_bijection (P : Z) (boxes : list Z) (val : Z) :
  bijection_on P boxes → P < 2 ^ 31 →
  CountBuffer boxes val P = Some (if decide (0 ≤ val < P) then 1 else 0).
Proof.
  intros Hbij HP. pose proof Hbij as (Hlen & _).
  assert (0 ≤ P) as HP0 by lia.
  apply bijection_on_Permutation in Hbij; [|done].
  unfold CountBuffer.
  pose proof (CountBuffer_for_spec boxes val (Z.to_nat P) 0 0) as Hc.
  change (Z.of_nat 0) with 0 in Hc. rewrite Hc by lia. clear Hc.
  rewrite drop_0, firstn_all2 by lia. rewrite Z.add_0_l. f_equal.
  assert (NoDup boxes) as Hnd by (rewrite Hbij; apply NoDup_seqZ).
  rewrite (length_filter_NoDup boxes val Hnd).
  destruct (decide (0 ≤ val < P)) as [Hval|Hval].
  - rewrite decide_True; [done|]. rewrite Hbij. apply elem_of_seqZ. lia.
  - rewrite decide_False; [done|]. rewrite Hbij. unfold iota.
    rewrite elem_of_seqZ. lia.
Qed.

Lemma CountBuffer_bijection_witness :
  bijection_on 4 [1; 2; 0; 3]
  ∧ CountBuffer [1; 2; 0; 3] 2 4 = Some (if decide (0 ≤ 2 < 4) then 1 else 0).
Proof.
  assert (bijection_on 4 [1; 2; 0; 3]) as Hb.
  { apply bijection_on_dec_Permutation; [lia|]. vm_compute. reflexivity. }
  split; [exact Hb|]. apply (CountBuffer_bijection 4 [1; 2; 0; 3] 2 Hb). lia.
Defined.

(** ** [main]: the number of threads and their ranges *)

(** X4. The number of threads.  Without multi-threading it is [1].  With
    it, [hardware_concurrency() - 2] is computed on [unsigned int]: a
    machine that reports 0 processors (the value the library returns when
    it cannot tell) or 1 gives [2^32 - 2] or [2^32 - 1] threads, one that
    reports 2, 3 or 4 gives 2 threads, and any other gives two threads less
    than processors.  There is always at least one thread, and at least two
    with multi-threading. *)
Theorem processor_count_cases `{Config} (hardware_concurrency : Z) :
  0 ≤ hardware_concurrency < 2 ^ 32 →
  processor_count hardware_concurrency
  = (if USE_MULTI_THREADING
     then if decide (hardware_concurrency < 2)
          then 2 ^ 32 - 2 + hardware_concurrency
          else if decide (hardware_concurrency ≤ 4) then 2
               else hardware_concurrency - 2
     else 1)
  ∧ 1 ≤ processor_count hardware_concurrency
  ∧ (USE_MULTI_THREADING = true → 2 ≤ processor_count hardware_concurrency).
Proof.
  intros Hhc. unfold processor_count, uint32.
  destruct USE_MULTI_THREADING; [|done].
  destruct (decide (hardware_concurrency < 2)) as [Hlt|Hge].
  - replace ((hardware_concurrency - 2) mod 2 ^ 32)
      with (2 ^ 32 - 2 + hardware_concurrency).
    + split; [lia|]. split; [lia|]. intros _. lia.
    + apply (Z.mod_unique _ _ (-1)); lia.
  - rewrite Z.mod_small by lia.
    destruct (decide (hardware_concurrency ≤ 4)); split_and!; lia.
Qed.

Lemma processor_count_cases_witness :
  @processor_count source_config 0 = 4294967294
  ∧ 1 ≤ @processor_count source_config 0
  ∧ (@USE_MULTI_THREADING source_config = true
     → 2 ≤ @processor_count source_config 0).
Proof.
  apply (@processor_count_cases source_config 0). lia.
Defined.

Section calls_claims.
Context `{Config}.

(** X5. The ranges of the calls of [Run].  With [stepSize = NUM_ITERATIONS
    / processor_count], thread [k] runs the [stepSize] trials from
    [stepSize * k] on and counts in [won[2k]] and [won[2k + 1]]; the
    remainder run, the last call, runs the [NUM_ITERATIONS mod
    processor_count] trials that are left.  One after the other the ranges
    are the trials [0], ..., [NUM_ITERATIONS - 1]: every trial is run by
    exactly one call. *)
Theorem calls_split_trials (processor_count : Z) :
  1 ≤ processor_count → 0 ≤ NUM_ITERATIONS →
  let stepSize := NUM_ITERATIONS / processor_count in
  length (calls processor_count) = S (Z.to_nat processor_count)
  ∧ (∀ k : nat, (k < Z.to_nat processor_count)%nat →
       ∃ c, calls processor_count !! k = Some c
            ∧ trials c = seqZ (stepSize * Z.of_nat k) stepSize
            ∧ slots c = [2 * Z.of_nat k; 2 * Z.of_nat k + 1])
  ∧ (calls processor_count !! Z.to_nat processor_count
     = Some (remainder processor_count stepSize)
     ∧ trials (remainder processor_count stepSize)
       = seqZ (stepSize * processor_count)
           (NUM_ITERATIONS mod processor_count))
  ∧ concat (trials <$> calls processor_count) = seqZ 0 NUM_ITERATIONS.
Proof.
  intros Hpc HN stepSize. unfold calls. fold stepSize.
  split_and!.
  - rewrite length_app, length_threads. simpl. lia.
  - intros k Hk. eexists. split.
    { rewrite lookup_app_l by (rewrite length_threads; lia).
      by apply threads_lookup. }
    cbn [trials slots]. split.
    + f_equal; nia.
    + replace ((0 + Z.of_nat k) * 2 + 0) with (2 * Z.of_nat k) by lia.
      by replace ((0 + Z.of_nat k) * 2 + 1) with (2 * Z.of_nat k + 1) by lia.
  - rewrite lookup_app_r by (rewrite length_threads; lia).
    rewrite length_threads, Nat.sub_diag. done.
  - cbn [remainder trials]. f_equal.
    unfold stepSize. rewrite Z.mod_eq by lia. lia.
  - by apply calls_trials.
Qed.

(** X6. With more threads than trials [stepSize] is [0]: no thread runs a
    trial, and the remainder run, on the main thread, runs all of them. *)
Theorem more_threads_than_trials (processor_count : Z) :
  0 ≤ NUM_ITERATIONS < processor_count →
  (∀ c, c ∈ threads (Z.to_nat processor_count) 0
              (NUM_ITERATIONS / processor_count) → trials c = [])
  ∧ remainder processor_count (NUM_ITERATIONS / processor_count)
    = (0, NUM_ITERATIONS, processor_count)
  ∧ trials (remainder processor_count (NUM_ITERATIONS / processor_count))
    = seqZ 0 NUM_ITERATIONS.
Proof.
  intros HN. rewrite Z.div_small by lia. split_and!.
  - intros c [k Hk]%list_elem_of_lookup.
    pose proof (lookup_lt_Some _ _ _ Hk) as Hlt.
    rewrite length_threads in Hlt.
    rewrite threads_lookup in Hk by done. injection Hk as <-.
    cbn [trials]. apply seqZ_nil. lia.
  - done.
  - cbn [remainder trials]. f_equal. lia.
Qed.
End calls_claims.

Lemma calls_split_trials_witness :
  length (@calls source_config 3) = 4%nat
  ∧ concat (trials <$> @calls source_config 3) = seqZ 0 1000000.
Proof.
  pose proof (@calls_split_trials source_config 3 ltac:(lia)
                ltac:(cbv [NUM_ITERATIONS source_config]; lia)) as Hsplit.
  exact (conj (proj1 Hsplit) (proj2 (proj2 (proj2 Hsplit)))).
Defined.

Lemma more_threads_than_trials_witness :
  @remainder source_config (@processor_count source_config 0)
    (1000000 / @processor_count source_config 0)
  = (0, 1000000, 4294967294).
Proof.
  refine (proj1 (proj2 (@more_threads_than_trials source_config
                          (@processor_count source_config 0) _))).
  vm_compute. split; [discriminate|reflexivity].
Defined.

(** X7. Every pointer [main] hands to a call of [Run], the remainder run
    included, is to two counters inside the array of [(processor_count +
    1) * 2] entries; and the spawned threads have counters of their own:
    two different threads share no counter. *)
Theorem calls_counters `{Config} (processor_count : Z) :
  1 ≤ processor_count →
  (∀ c slot, c ∈ calls processor_count → slot ∈ slots c →
             0 ≤ slot < (processor_count + 1) * 2)
  ∧ (∀ (j k : nat) cj ck slot,
       calls processor_count !! j = Some cj →
       calls processor_count !! k = Some ck →
       (j < Z.to_nat processor_count)%nat →
       (k < Z.to_nat processor_count)%nat →
       slot ∈ slots cj → slot ∈ slots ck → j = k).
Proof.
  intros Hpc. unfold calls.
  set (stepSize := NUM_ITERATIONS / processor_count). split.
  - intros c slot [Hc|Hc]%elem_of_app Hslot.
    + apply list_elem_of_lookup in Hc as [k Hk].
      pose proof (lookup_lt_Some _ _ _ Hk) as Hlt.
      rewrite length_threads in Hlt.
      rewrite threads_lookup in Hk by done. injection Hk as <-.
      cbn [slots] in Hslot.
      rewrite !elem_of_cons, elem_of_nil in Hslot. lia.
    + apply list_elem_of_singleton in Hc as ->.
      cbn [remainder slots] in Hslot.
      rewrite !elem_of_cons, elem_of_nil in Hslot. lia.
  - intros j k cj ck slot Hj Hk Hjn Hkn.
    rewrite lookup_app_l in Hj, Hk by (rewrite length_threads; lia).
    by apply (threads_slots_disjoint (Z.to_nat processor_count) stepSize
                j k cj ck slot).
Qed.

Lemma calls_counters_witness :
  (∀ c slot, c ∈ @calls source_config 3 → slot ∈ slots c →
             0 ≤ slot < (3 + 1) * 2)
  ∧ (∀ (j k : nat) cj ck slot,
       @calls source_config 3 !! j = Some cj →
       @calls source_config 3 !! k = Some ck →
       (j < Z.to_nat 3)%nat → (k < Z.to_nat 3)%nat →
       slot ∈ slots cj → slot ∈ slots ck → j = k).
Proof.
  apply (@calls_counters source_config 3). lia.
Defined.

(** ** [Run]: what the two counters count *)

Lemma filter_ext_in {A} (P Q : A → Prop) `{!∀ x, Decision (P x)}
    `{!∀ x, Decision (Q x)} (l : list A) :
  (∀ x, x ∈ l → P x ↔ Q x) → filter P l = filter Q l.
Proof.
  induction l as [|x l IH]; intros Hext; [done|].
  rewrite !filter_cons. rewrite IH.
  - destruct (decide (P x)) as [HP|HP], (decide (Q x)) as [HQ|HQ]; try done.
    + destruct HQ. apply Hext; [apply elem_of_cons; by left|done].
    + destruct HP. apply Hext; [apply elem_of_cons; by left|done].
  - intros y Hy. apply Hext. apply elem_of_cons. by right.
Qed.

Section Run_counts.
Context `{Config} `{StdRandom} `{!StdRandomSpec}.

Lemma boxes_at_first boxes it :
  boxes_at boxes it it = RandomiseBoxes boxes it.
Proof.
  unfold boxes_at. replace (it - it + 1) with 1 by lia.
  rewrite (seqZ_cons it 1) by lia. by rewrite (seqZ_nil (Z.succ it)) by lia.
Qed.

Lemma boxes_at_next boxes it t :
  it < t → boxes_at boxes it t = boxes_at (RandomiseBoxes boxes it) (it + 1) t.
Proof.
  intros Hlt. unfold boxes_at. rewrite (seqZ_cons it) by lia. cbn [foldl].
  do 2 f_equal; lia.
Qed.

(** [n] trials from trial [it] on, with the counts of the successes. *)
Lemma Run_for_counts n it boxes :
  0 ≤ NUM_PRISONERS < 2 ^ 16 →
  boxes ≡ₚ iota NUM_PRISONERS →
  ∀ won arr,
    0 ≤ won → won + 1 < Z.of_nat (length arr) → uint64_array arr →
    Run_for n it won boxes arr
    = Some (foldl RandomiseBoxes boxes (seqZ it (Z.of_nat n)),
            bump (bump arr won
                    (Z.of_nat (length (filter
                       (λ t, won_random t (boxes_at boxes it t))
                       (seqZ it (Z.of_nat n))))))
              (won + 1)
              (Z.of_nat (length (filter
                 (λ t, won_method (boxes_at boxes it t))
                 (seqZ it (Z.of_nat n)))))).
Proof.
  intros HP. revert it boxes.
  induction n as [|n IH]; intros it boxes Hboxes won arr Hwon Hlen Harr.
  - cbn [Run_for]. rewrite seqZ_nil by lia. cbn [foldl filter list_filter length].
    by rewrite !bump_0 by (try apply uint64_array_bump; done).
  - destruct (Run_trial_spec it boxes HP Hboxes)
      as (r1 & m1 & Hr1 & Hm1 & Htrial).
    cbn zeta in Hr1, Hm1, Htrial.
    cbn [Run_for]. rewrite Htrial by done. cbn [mbind option_bind].
    rewrite IH;
      [|by rewrite RandomiseBoxes_Permutation|done
       |by rewrite !length_bump|by repeat apply uint64_array_bump].
    rewrite (seqZ_cons it (Z.of_nat (S n))) by lia.
    replace (Z.pred (Z.of_nat (S n))) with (Z.of_nat n) by lia.
    replace (Z.succ it) with (it + 1) by lia.
    cbn [foldl]. rewrite !filter_cons, !boxes_at_first.
    rewrite (filter_ext_in
               (λ t, won_random t (boxes_at boxes it t))
               (λ t, won_random t
                       (boxes_at (RandomiseBoxes boxes it) (it + 1) t))
               (seqZ (it + 1) (Z.of_nat n))).
    2:{ intros t [Ht _]%elem_of_seqZ. by rewrite boxes_at_next by lia. }
    rewrite (filter_ext_in
               (λ t, won_method (boxes_at boxes it t))
               (λ t, won_method
                       (boxes_at (RandomiseBoxes boxes it) (it + 1) t))
               (seqZ (it + 1) (Z.of_nat n))).
    2:{ intros t [Ht _]%elem_of_seqZ. by rewrite boxes_at_next by lia. }
    do 2 f_equal.
    rewrite (bump_comm _ (won + 1) won) by lia.
    rewrite bump_bump, bump_bump. f_equal; [f_equal|].
    + assert (won_random it (RandomiseBoxes boxes it) ↔ r1 = NUM_PRISONERS)
        as Hiff.
      { unfold won_random. rewrite Hr1, bool_decide_spec.
        split; [congruence|by intros ->]. }
      destruct (decide (r1 = NUM_PRISONERS)) as [Heq|Hne].
      * rewrite decide_True by by apply Hiff. cbn [length]. lia.
      * rewrite decide_False by by rewrite Hiff. lia.
    + assert (won_method (RandomiseBoxes boxes it) ↔ m1 = NUM_PRISONERS)
        as Hiff.
      { unfold won_method. rewrite Hm1, bool_decide_spec.
        split; [congruence|by intros ->]. }
      destruct (decide (m1 = NUM_PRISONERS)) as [Heq|Hne].
      * rewrite decide_True by by apply Hiff. cbn [length]. lia.
      * rewrite decide_False by by rewrite Hiff. lia.
Qed.
End Run_counts.

Lemma seqZ_to_nat m n : seqZ m (Z.of_nat (Z.to_nat n)) = seqZ m n.
Proof. unfold seqZ. by rewrite Nat2Z.id. Qed.

Section Run_extras.
Context `{Config} `{StdRandom} `{!StdRandomSpec}.

Lemma trial_won_random_boxes_at startVal t :
  0 ≤ NUM_PRISONERS < 2 ^ 16 → startVal ≤ t →
  trial_won_random startVal t
  = won_random t (boxes_at (iota NUM_BOXES) startVal t).
Proof.
  intros HP Hle. unfold trial_won_random.
  by rewrite trial_boxes_foldl by done.
Qed.

Lemma trial_won_method_boxes_at startVal t :
  0 ≤ NUM_PRISONERS < 2 ^ 16 → startVal ≤ t →
  trial_won_method startVal t
  = won_method (boxes_at (iota NUM_BOXES) startVal t).
Proof.
  intros HP Hle. unfold trial_won_method.
  by rewrite trial_boxes_foldl by done.
Qed.

(** A call of [Run] on counters that are inside the array, with the counts
    of its successes. *)
Lemma Run_successes startVal endVal won arr :
  0 ≤ NUM_PRISONERS < 2 ^ 16 →
  0 ≤ won → won + 1 < Z.of_nat (length arr) → uint64_array arr →
  Run startVal endVal won arr
  = Some (bump (bump arr won (successes (startVal, endVal, won)).1)
            (won + 1) (successes (startVal, endVal, won)).2).
Proof.
  intros HP Hwon Hlen Harr. unfold Run, NUM_BOXES.
  rewrite (Run_for_counts _ _ _ HP) by done. cbn [fmap option_fmap option_map snd].
  rewrite !seqZ_to_nat. unfold successes, count_trials. cbn [fst snd].
  do 3 f_equal.
  - do 2 f_equal. apply filter_ext_in. intros t [Ht _]%elem_of_seqZ.
    by rewrite trial_won_random_boxes_at.
  - do 2 f_equal. apply filter_ext_in. intros t [Ht _]%elem_of_seqZ.
    by rewrite trial_won_method_boxes_at.
Qed.

Lemma successes_bound c :
  0 ≤ (successes c).1 ≤ Z.of_nat (length (trials c))
  ∧ 0 ≤ (successes c).2 ≤ Z.of_nat (length (trials c)).
Proof.
  destruct c as [[startVal endVal] won].
  unfold successes, count_trials, trials. cbn [fst snd].
  pose proof (length_filter (trial_won_random startVal)
                (seqZ startVal (endVal - startVal))).
  pose proof (length_filter (trial_won_method startVal)
                (seqZ startVal (endVal - startVal))).
  lia.
Qed.

(** X8. [Run(startVal, endVal, won)] adds to [won[0]] the number of the
    trials [t] of its range in which the random search with the seed [t]
    brings all prisoners through on the permutation of trial [t], and to
    [won[1]] the number of those in which the method does; the additions
    are on [uint64_t]. *)
Theorem Run_counts_wins (startVal endVal won : Z) (arr : list Z) :
  0 ≤ NUM_PRISONERS < 2 ^ 16 →
  0 ≤ won → won + 1 < Z.of_nat (length arr) → uint64_array arr →
  let r := count_trials (trial_won_random startVal) startVal endVal in
  let m := count_trials (trial_won_method startVal) startVal endVal in
  ∃ arr' w0 w1,
    Run startVal endVal won arr = Some arr'
    ∧ arr' = bump (bump arr won r) (won + 1) m
    ∧ read arr won = Some w0 ∧ read arr (won + 1) = Some w1
    ∧ read arr' won = Some (uint64 (w0 + r))
    ∧ read arr' (won + 1) = Some (uint64 (w1 + m)).
Proof.
  intros HP Hwon Hlen Harr r m.
  destruct (read_in_range arr won) as [w0 Hw0]; [lia|].
  destruct (read_in_range arr (won + 1)) as [w1 Hw1]; [lia|].
  exists (bump (bump arr won r) (won + 1) m), w0, w1.
  split; [by rewrite Run_successes|]. split; [done|].
  split; [done|]. split; [done|]. split.
  - rewrite read_bump_ne by lia. by apply read_bump_eq.
  - apply read_bump_eq. by rewrite read_bump_ne by lia.
Qed.

(** X9. A call of [Run] writes the two counters it is given and nothing
    else: the array keeps its length, every other entry keeps its value,
    and each of the two counters grows, modulo [2^64], by at most the
    number of trials of the range.  A call with an empty range leaves the
    array as it is. *)
Theorem Run_writes_two_counters (startVal endVal won : Z) (arr : list Z) :
  0 ≤ NUM_PRISONERS < 2 ^ 16 →
  0 ≤ won → won + 1 < Z.of_nat (length arr) → uint64_array arr →
  ∃ arr' r m,
    Run startVal endVal won arr = Some arr'
    ∧ length arr' = length arr
    ∧ uint64_array arr'
    ∧ 0 ≤ r ≤ Z.max 0 (endVal - startVal)
    ∧ 0 ≤ m ≤ Z.max 0 (endVal - startVal)
    ∧ (∀ v, read arr won = Some v → read arr' won = Some (uint64 (v + r)))
    ∧ (∀ v, read arr (won + 1) = Some v →
            read arr' (won + 1) = Some (uint64 (v + m)))
    ∧ (∀ j, j ≠ won → j ≠ won + 1 → read arr' j = read arr j)
    ∧ (endVal ≤ startVal → arr' = arr).
Proof.
  intros HP Hwon Hlen Harr.
  pose proof (successes_bound (startVal, endVal, won)) as [Hr Hm].
  cbn [trials] in Hr, Hm. rewrite length_seqZ in Hr, Hm.
  eexists _, (successes (startVal, endVal, won)).1,
    (successes (startVal, endVal, won)).2.
  split; [by apply Run_successes|].
  split_and!.
  - by rewrite !length_bump.
  - by repeat apply uint64_array_bump.
  - lia.
  - lia.
  - lia.
  - lia.
  - intros v Hv. rewrite read_bump_ne by lia. by apply read_bump_eq.
  - intros v Hv. apply read_bump_eq. by rewrite read_bump_ne by lia.
  - intros j Hj0 Hj1. by rewrite !read_bump_ne by lia.
  - intros Hle.
    assert ((successes (startVal, endVal, won)).1 = 0) as -> by lia.
    assert ((successes (startVal, endVal, won)).2 = 0) as -> by lia.
    by rewrite !bump_0 by (try apply uint64_array_bump; done).
Qed.
End Run_extras.

Lemma Run_counts_wins_witness :
  ∃ arr' w0 w1,
    @Run four_prisoners lcg_random 0 24 1 [7; 8; 9] = Some arr'
    ∧ arr' = bump (bump [7; 8; 9] 1
                     (count_trials
                        (@trial_won_random four_prisoners lcg_random 0) 0 24))
               (1 + 1)
               (count_trials
                  (@trial_won_method four_prisoners lcg_random 0) 0 24)
    ∧ read [7; 8; 9] 1 = Some w0 ∧ read [7; 8; 9] (1 + 1) = Some w1
    ∧ read arr' 1
      = Some (uint64 (w0 + count_trials
                             (@trial_won_random four_prisoners lcg_random 0)
                             0 24))
    ∧ read arr' (1 + 1)
      = Some (uint64 (w1 + count_trials
                             (@trial_won_method four_prisoners lcg_random 0)
                             0 24)).
Proof.
  apply (@Run_counts_wins four_prisoners lcg_random lcg_random_spec 0 24 1
           [7; 8; 9]).
  - cbv [NUM_PRISONERS four_prisoners]. lia.
  - lia.
  - simpl. lia.
  - repeat constructor; lia.
Defined.

Lemma Run_writes_two_counters_witness :
  ∃ arr' r m,
    @Run four_prisoners lcg_random 3 5 2 [7; 7; 0; 0; 7] = Some arr'
    ∧ length arr' = length [7; 7; 0; 0; 7]
    ∧ uint64_array arr'
    ∧ 0 ≤ r ≤ Z.max 0 (5 - 3)
    ∧ 0 ≤ m ≤ Z.max 0 (5 - 3)
    ∧ (∀ v, read [7; 7; 0; 0; 7] 2 = Some v →
            read arr' 2 = Some (uint64 (v + r)))
    ∧ (∀ v, read [7; 7; 0; 0; 7] (2 + 1) = Some v →
            read arr' (2 + 1) = Some (uint64 (v + m)))
    ∧ (∀ j, j ≠ 2 → j ≠ 2 + 1 → read arr' j = read [7; 7; 0; 0; 7] j)
    ∧ (5 ≤ 3 → arr' = [7; 7; 0; 0; 7]).
Proof.
  apply (@Run_writes_two_counters four_prisoners lcg_random lcg_random_spec
           3 5 2 [7; 7; 0; 0; 7]).
  - cbv [NUM_PRISONERS four_prisoners]. lia.
  - lia.
  - simpl. lia.
  - repeat constructor; lia.
Defined.

(** ** [main]: the merge loop and the totals *)

Lemma merge_frame n i won won' :
  merge n i won = Some won' →
  length won' = length won ∧ ∀ j, 2 ≤ j → read won' j = read won j.
Proof.
  revert i won. induction n as [|n IH]; intros i won Hm.
  - injection Hm as <-. done.
  - cbn [merge] in Hm.
    destruct (read won i) as [a|]; [|done].
    destruct (read won 0) as [w0|]; [|done]. cbn [mbind option_bind] in Hm.
    destruct (read _ (i + 1)) as [b|]; [|done].
    destruct (read _ 1) as [w1|]; [|done]. cbn [mbind option_bind] in Hm.
    apply IH in Hm as [Hlen Hframe]. split.
    + by rewrite Hlen, !length_insert.
    + intros j Hj. rewrite Hframe by done.
      by rewrite !read_insert_ne by lia.
Qed.

(** X10. The loop "add up all wins" on the array of [(processor_count + 1)
    * 2] counters: it reads inside the array only, adds every counter at an
    even index into [won[0]] and every counter at an odd index into
    [won[1]], modulo [2^64], and leaves the counters from index 2 on as
    they are. *)
Theorem merge_adds_up (processor_count : Z) (won : list Z) :
  0 ≤ processor_count →
  Z.of_nat (length won) = (processor_count + 1) * 2 →
  uint64_array won →
  ∃ won',
    merge (Z.to_nat processor_count) 2 won = Some won'
    ∧ length won' = length won
    ∧ read won' 0 = Some (uint64 (sums won).1)
    ∧ read won' 1 = Some (uint64 (sums won).2)
    ∧ ∀ j, 2 ≤ j → read won' j = read won j.
Proof.
  intros Hpc Hlen Hwon.
  destruct won as [|w0 [|w1 rest]]; [simpl in Hlen; lia..|].
  apply Forall_cons in Hwon as [Hw0 Hwon].
  apply Forall_cons in Hwon as [Hw1 _].
  destruct (merge_spec (Z.to_nat processor_count) 2 (w0 :: w1 :: rest) w0 w1)
    as (won' & Hm & Hr0 & Hr1); [lia|lia|done..|].
  exists won'. split; [done|].
  destruct (merge_frame _ _ _ _ Hm) as [Hlen' Hframe].
  split; [done|]. rewrite Hr0, Hr1.
  change (drop (Z.to_nat 2) (w0 :: w1 :: rest)) with rest.
  cbn [sums]. destruct (sums rest) as [e o] eqn:Hs. cbn [fst snd].
  destruct (Z.to_nat processor_count) as [|n] eqn:Hn.
  - assert (rest = []) as -> by (apply nil_length_inv; simpl in Hlen; lia).
    injection Hs as <- <-. unfold uint64.
    rewrite !Z.add_0_r, !Z.mod_small by lia. done.
  - done.
Qed.

Lemma merge_adds_up_witness :
  ∃ won',
    merge (Z.to_nat 2) 2 [1; 2; 3; 4; 5; 6] = Some won'
    ∧ length won' = length [1; 2; 3; 4; 5; 6]
    ∧ read won' 0 = Some (uint64 (sums [1; 2; 3; 4; 5; 6]).1)
    ∧ read won' 1 = Some (uint64 (sums [1; 2; 3; 4; 5; 6]).2)
    ∧ ∀ j, 2 ≤ j → read won' j = read [1; 2; 3; 4; 5; 6] j.
Proof.
  apply (merge_adds_up 2 [1; 2; 3; 4; 5; 6]).
  - lia.
  - simpl. lia.
  - repeat constructor; lia.
Defined.

Section main_extras.
Context `{Config} `{StdRandom} `{!StdRandomSpec}.

(** On counters of its own a call counts its successes. *)
Lemma wins_of_successes c :
  0 ≤ NUM_PRISONERS < 2 ^ 16 →
  Z.of_nat (length (trials c)) < 2 ^ 64 →
  wins_of c = successes c.
Proof.
  intros HP Hlen. pose proof (successes_bound c) as [Hr Hm].
  destruct c as [[startVal endVal] won].
  unfold wins_of, worker_wins.
  rewrite (Run_successes startVal endVal 0 [0; 0] HP);
    [|lia|simpl; lia|apply (uint64_array_zeros 2)].
  change (successes (startVal, endVal, 0))
    with (successes (startVal, endVal, won)).
  destruct (successes (startVal, endVal, won)) as [r m].
  cbn [fst snd] in *.
  change (bump (bump [0; 0] 0 r) (0 + 1) m) with [uint64 r; uint64 m].
  unfold uint64. by rewrite !Z.mod_small by lia.
Qed.



Lemma total_ext {A} (f g : A → Z * Z) (l : list A) :
  Forall (λ x, f x = g x) l → total (f <$> l) = total (g <$> l).
Proof.
  induction 1 as [|x l Hx _ IH]; [done|].
  by rewrite !fmap_cons, !total_cons, Hx, IH.
Qed.




(** X13. When [processor_count] divides [NUM_ITERATIONS] the remainder run
    has no trial and writes no counter, and the totals of [main] are the
    numbers of successes of the two strategies over the trials of the
    threads, which are all trials: in whatever order the calls run to
    their end. *)
Theorem main_exact_when_divisible (processor_count : Z)
    (schedule : list call) :
  0 ≤ NUM_PRISONERS < 2 ^ 16 →
  1 ≤ processor_count →
  0 ≤ NUM_ITERATIONS < 2 ^ 63 →
  NUM_ITERATIONS mod processor_count = 0 →
  schedule ≡ₚ calls processor_count →
  let stepSize := NUM_ITERATIONS / processor_count in
  let workers := threads (Z.to_nat processor_count) 0 stepSize in
  trials (remainder processor_count stepSize) = []
  ∧ concat (trials <$> workers) = seqZ 0 NUM_ITERATIONS
  ∧ main_scheduled processor_count schedule
    = Some (total (successes <$> workers)).
Proof.
  intros HP Hpc HN Hdiv Hperm stepSize workers.
  assert (stepSize * processor_count = NUM_ITERATIONS) as Hmul.
  { unfold stepSize. pose proof (Z.div_mod NUM_ITERATIONS processor_count).
    lia. }
  assert (0 ≤ stepSize) as Hstep by (apply Z.div_pos; lia).
  assert (trials (remainder processor_count stepSize) = []) as Hrem.
  { cbn [remainder trials]. apply seqZ_nil. lia. }
  split; [done|]. split.
  { unfold workers. rewrite threads_trials by done.
    rewrite Z.mul_0_r, Z2Nat.id by lia. by rewrite Hmul. }
  rewrite (main_any_order processor_count schedule) by done.
  rewrite main_spec by done. f_equal.
  pose proof (calls_valid processor_count Hpc HN) as Hvalid.
  unfold calls in *. fold stepSize in Hvalid |- *. fold workers in Hvalid |- *.
  apply Forall_app in Hvalid as [Hworkers _].
  rewrite fmap_app, total_app. unfold workers.
  rewrite total_threads_credit. fold workers.
  cbn [fmap list_fmap]. rewrite total_cons. cbn [total foldr fst snd].
  assert (credit_of (remainder processor_count stepSize) = (0, 0)) as ->.
  { unfold credit_of. rewrite wins_of_successes; [|done|rewrite Hrem; simpl; lia].
    unfold successes, remainder, count_trials.
    rewrite seqZ_nil by lia. cbn. by destruct (Z.even processor_count). }
  cbn [fst snd]. rewrite !Z.add_0_r.
  rewrite (total_ext wins_of successes workers).
  - by destruct (total (successes <$> workers)).
  - eapply Forall_impl; [exact Hworkers|].
    intros c (_ & _ & Hc). by apply wins_of_successes.
Qed.
End main_extras.



Lemma main_exact_when_divisible_witness :
  @main_scheduled two_prisoners lcg_random 2 (@calls two_prisoners 2)
  = Some (total (@successes two_prisoners lcg_random
                   <$> threads (Z.to_nat 2) 0 (4 / 2))).
Proof.
  refine (proj2 (proj2 (@main_exact_when_divisible two_prisoners lcg_random
                          lcg_random_spec 2 (@calls two_prisoners 2)
                          _ _ _ _ _))).
  - cbv [NUM_PRISONERS two_prisoners]. lia.
  - lia.
  - cbv [NUM_ITERATIONS two_prisoners]. lia.
  - reflexivity.
  - reflexivity.
Defined.

(** ** The results of the two strategy functions *)

Lemma incremented_uint32 d succeed :
  0 ≤ succeed < 2 ^ 32 →
  incremented d succeed = uint32 (succeed + Z.of_nat d).
Proof.
  intros Hs. unfold incremented, uint32. induction d as [|d IH].
  - simpl. rewrite Z.add_0_r, Z.mod_small by lia. done.
  - rewrite Nat.iter_succ, IH.
    rewrite Zplus_mod_idemp_l. f_equal. lia.
Qed.

Section strategy_results.
Context `{Config}.

(** X14. On a permutation [RunMethod], started with the counter at [0],
    returns the number of the first prisoner whose cycle is longer than
    [K = P/2], and [P] when there is none; it returns [P], the value that
    counts as a win, exactly when no cycle is longer than [K]. *)
Theorem RunMethod_first_failure (boxes : list Z) :
  0 ≤ NUM_PRISONERS < 2 ^ 16 →
  bijection_on NUM_PRISONERS boxes →
  ∃ r,
    call_on (RunMethod 0) boxes = Some (r, boxes)
    ∧ 0 ≤ r ≤ NUM_PRISONERS
    ∧ (∀ p, 0 ≤ p < r →
         ∃ c, cycle_length boxes p c ∧ Z.of_nat c ≤ MAX_BOXES_TO_OPEN)
    ∧ (r < NUM_PRISONERS →
         ∃ c, cycle_length boxes r c ∧ MAX_BOXES_TO_OPEN < Z.of_nat c)
    ∧ (r = NUM_PRISONERS
       ↔ ∀ p, 0 ≤ p < NUM_PRISONERS →
           ∃ c, cycle_length boxes p c ∧ Z.of_nat c ≤ MAX_BOXES_TO_OPEN).
Proof.
  intros HP Hbij.
  pose proof (bijection_on_entries_below _ _ Hbij) as Hboxes.
  destruct (RunMethod_spec boxes HP Hboxes) as (r & Hrun & Hr & Hall & Hstop).
  exists r. split; [done|]. split; [done|]. split; [|split].
  - intros p Hp. by apply returns_within_least, Hall.
  - intros Hlt. destruct (cycle_length_exists _ boxes r Hbij) as (c & Hc & _);
      [lia|].
    exists c. split; [done|].
    destruct (decide (MAX_BOXES_TO_OPEN < Z.of_nat c)); [done|].
    exfalso. apply (Hstop Hlt), returns_within_least.
    exists c. split; [done|lia].
  - split.
    + intros -> p Hp. by apply returns_within_least, Hall.
    + intros Hshort. destruct (decide (r = NUM_PRISONERS)); [done|].
      exfalso. apply Hstop; [lia|]. apply returns_within_least, Hshort. lia.
Qed.

(** X15. The counter [succeed] is a reference the function adds to:
    started with the counter at [succeed], [RunMethod] leaves it at
    [succeed] plus the result it gives from [0], as a [uint32_t]. *)
Theorem RunMethod_adds_to_counter (boxes : list Z) (succeed : Z) :
  0 ≤ NUM_PRISONERS < 2 ^ 16 →
  entries_below NUM_PRISONERS boxes →
  0 ≤ succeed < 2 ^ 32 →
  ∃ r,
    call_on (RunMethod 0) boxes = Some (r, boxes)
    ∧ call_on (RunMethod succeed) boxes = Some (uint32 (succeed + r), boxes).
Proof.
  intros HP Hboxes Hs. unfold call_on, RunMethod.
  destruct (RunMethod_loop_spec boxes [] (Z.to_nat NUM_PRISONERS) 0 0)
    as (d0 & -> & Hd0 & Hall0 & Hstop0); [lia|done|lia|lia|].
  destruct (RunMethod_loop_spec boxes [] (Z.to_nat NUM_PRISONERS) 0 succeed)
    as (d & -> & Hd & Hall & Hstop); [lia|done|lia|lia|].
  assert (d = d0) as ->.
  { destruct (Nat.lt_trichotomy d d0) as [Hlt|[Heq|Hgt]]; [|done|].
    - exfalso. apply Hstop; [lia|]. apply Hall0. lia.
    - exfalso. apply Hstop0; [lia|]. apply Hall. lia. }
  eexists. split; [reflexivity|].
  rewrite (incremented_small d0 0) by lia.
  rewrite incremented_uint32 by done. by rewrite Z.add_0_l.
Qed.
End strategy_results.

Lemma RunMethod_first_failure_witness :
  ∃ r,
    call_on (@RunMethod four_prisoners 0) [1; 0; 3; 2]
    = Some (r, [1; 0; 3; 2])
    ∧ 0 ≤ r ≤ 4
    ∧ (∀ p, 0 ≤ p < r →
         ∃ c, cycle_length [1; 0; 3; 2] p c ∧ Z.of_nat c ≤ 4 / 2)
    ∧ (r < 4 → ∃ c, cycle_length [1; 0; 3; 2] r c ∧ 4 / 2 < Z.of_nat c)
    ∧ (r = 4
       ↔ ∀ p, 0 ≤ p < 4 →
           ∃ c, cycle_length [1; 0; 3; 2] p c ∧ Z.of_nat c ≤ 4 / 2).
Proof.
  assert (bijection_on 4 [1; 0; 3; 2]) as Hb.
  { apply bijection_on_dec_Permutation; [lia|]. vm_compute. reflexivity. }
  apply (@RunMethod_first_failure four_prisoners [1; 0; 3; 2]); [|exact Hb].
  cbv [NUM_PRISONERS four_prisoners]. lia.
Defined.

Lemma RunMethod_adds_to_counter_witness :
  ∃ r,
    call_on (@RunMethod four_prisoners 0) [1; 0; 3; 2]
    = Some (r, [1; 0; 3; 2])
    ∧ call_on (@RunMethod four_prisoners 4294967294) [1; 0; 3; 2]
      = Some (uint32 (4294967294 + r), [1; 0; 3; 2]).
Proof.
  apply (@RunMethod_adds_to_counter four_prisoners [1; 0; 3; 2] 4294967294).
  - cbv [NUM_PRISONERS four_prisoners]. lia.
  - split; [reflexivity|]. repeat constructor; cbv [NUM_PRISONERS four_prisoners]; lia.
  - lia.
Defined.

Section RunRandom_results.
Context `{Config} `{StdRandom} `{!StdRandomSpec}.

(** X16. On a vector of [P] boxes [RunRandom], started with the counter
    at [0], returns the number of the first prisoner whose number is in
    none of the first [K = P/2] boxes of the prisoner's search order, and
    [P] when there is none; it returns [P], the value that counts as a
    win, exactly when every prisoner has the number among the first [K]
    boxes of the search order. *)
Theorem RunRandom_first_failure (boxes : list Z) (seed : Z) :
  0 ≤ NUM_PRISONERS < 2 ^ 16 →
  Z.of_nat (length boxes) = NUM_PRISONERS →
  ∃ r,
    call_on (RunRandom 0 seed) boxes = Some (r, boxes)
    ∧ 0 ≤ r ≤ NUM_PRISONERS
    ∧ (∀ p, 0 ≤ p < r →
         among_first MAX_BOXES_TO_OPEN (search_order_of seed p) boxes p)
    ∧ (r < NUM_PRISONERS →
         ¬ among_first MAX_BOXES_TO_OPEN (search_order_of seed r) boxes r)
    ∧ (r = NUM_PRISONERS
       ↔ ∀ p, 0 ≤ p < NUM_PRISONERS →
           among_first MAX_BOXES_TO_OPEN (search_order_of seed p) boxes p).
Proof.
  intros HP Hlen.
  destruct (RunRandom_spec boxes seed HP Hlen)
    as (r & Hrun & Hr & Hall & Hstop).
  exists r. split; [done|]. split; [done|]. split; [done|]. split; [done|].
  split.
  - intros -> p Hp. by apply Hall.
  - intros Hfound. destruct (decide (r = NUM_PRISONERS)); [done|].
    exfalso. apply Hstop; [lia|]. apply Hfound. lia.
Qed.

(** X17. [RunRandom] reads inside [boxes] only, whatever the boxes hold:
    on every vector of [P] entries it returns a result, whatever the
    counter and the seed it is given, and every position of [boxes] it
    reads at is in [[0,P)], because every search order is a permutation of
    [[0,P)]. *)
Theorem RunRandom_reads_in_bounds (boxes : list Z) :
  0 ≤ NUM_PRISONERS →
  Z.of_nat (length boxes) = NUM_PRISONERS →
  ∀ succeed seed opened, ∃ r tr,
    RunRandom succeed seed (boxes, opened) = Some (r, (boxes, opened ++ tr))
    ∧ Forall (λ pos, 0 ≤ pos < NUM_PRISONERS) tr.
Proof.
  intros HP Hlen succeed seed opened. unfold RunRandom, NUM_BOXES.
  destruct (RunRandom_loop_spec boxes opened (Z.to_nat NUM_PRISONERS) 0
              (iota NUM_PRISONERS) (mt19937_64_seed seed) succeed)
    as (d & Hrun & _); [done..|].
  eexists _, _. split; [exact Hrun|].
  apply Forall_concat, Forall_fmap, Forall_forall. intros k _.
  cbn [compose].
  set (order := (shuffles (S k) (iota NUM_PRISONERS)
                   (mt19937_64_seed seed)).1).
  assert (order ≡ₚ iota NUM_PRISONERS) as Horder
    by apply shuffles_Permutation.
  destruct (RunRandom_prisoner_spec boxes order (0 + Z.of_nat k))
    as (hit & h & _ & -> & _); [done..|].
  apply Forall_forall. intros x Hx%subseteq_take.
  rewrite Horder in Hx. apply elem_of_seqZ in Hx. lia.
Qed.

(** X18. [RunRandom] adds to the counter it is given: started with the
    counter at [succeed] it leaves it at [succeed] plus the result it
    gives from [0], as a [uint32_t]. *)
Theorem RunRandom_adds_to_counter (boxes : list Z) (seed succeed : Z) :
  0 ≤ NUM_PRISONERS < 2 ^ 16 →
  Z.of_nat (length boxes) = NUM_PRISONERS →
  0 ≤ succeed < 2 ^ 32 →
  ∃ r,
    call_on (RunRandom 0 seed) boxes = Some (r, boxes)
    ∧ call_on (RunRandom succeed seed) boxes
      = Some (uint32 (succeed + r), boxes).
Proof.
  intros HP Hlen Hs. unfold call_on, RunRandom, NUM_BOXES.
  destruct (RunRandom_loop_spec boxes [] (Z.to_nat NUM_PRISONERS) 0
              (iota NUM_PRISONERS) (mt19937_64_seed seed) 0)
    as (d0 & -> & Hd0 & Hall0 & Hstop0); [lia|done..|].
  destruct (RunRandom_loop_spec boxes [] (Z.to_nat NUM_PRISONERS) 0
              (iota NUM_PRISONERS) (mt19937_64_seed seed) succeed)
    as (d & -> & Hd & Hall & Hstop); [lia|done..|].
  assert (d = d0) as ->.
  { destruct (Nat.lt_trichotomy d d0) as [Hlt|[Heq|Hgt]]; [|done|].
    - exfalso. apply Hstop; [lia|]. apply Hall0. lia.
    - exfalso. apply Hstop0; [lia|]. apply Hall. lia. }
  eexists. split; [reflexivity|].
  rewrite (incremented_small d0 0) by lia.
  rewrite incremented_uint32 by done. by rewrite Z.add_0_l.
Qed.

(** X19. [RandomiseBoxes] and [RunRandom] seed their generators with the
    same trial number and shuffle the same vector [0, ..., P-1]: in the
    first trial of a call of [Run] the search order of prisoner 0 is the
    permutation of the boxes itself.  Prisoner 0 then opens the boxes
    [boxes[0]], [boxes[1]], ... and is counted exactly when
    [boxes[boxes[i]]] is [0] for some [i] below [K = P/2]. *)
Theorem first_trial_search_order (t : Z) :
  1 ≤ NUM_PRISONERS < 2 ^ 16 →
  ∃ boxes,
    trial_boxes t t = Some boxes
    ∧ search_order_of t 0 = boxes
    ∧ (counted_random t boxes 0
       ↔ ∃ i, 0 ≤ i < MAX_BOXES_TO_OPEN ∧ follow boxes 2 i = Some 0).
Proof.
  intros HP. exists (RandomiseBoxes (iota NUM_BOXES) t).
  set (boxes := RandomiseBoxes (iota NUM_BOXES) t).
  assert (search_order_of t 0 = boxes) as Horder.
  { unfold search_order_of, boxes, RandomiseBoxes.
    change (Z.to_nat (0 + 1)) with 1%nat. cbn [shuffles].
    by destruct (shuffle _ _). }
  split; [|split; [done|]].
  - rewrite trial_boxes_foldl by lia. replace (t - t + 1) with 1 by lia.
    rewrite (seqZ_cons t 1) by lia. by rewrite (seqZ_nil (Z.succ t)) by lia.
  - assert (Z.of_nat (length boxes) = NUM_PRISONERS) as Hlen.
    { unfold boxes. rewrite RandomiseBoxes_Permutation.
      unfold iota, NUM_BOXES. rewrite length_seqZ. lia. }
    destruct (RunRandom_spec boxes t)
      as (r & Hrun & Hr & Hall & Hstop); [lia|done|].
    assert (among_first MAX_BOXES_TO_OPEN boxes boxes 0
            ↔ ∃ i, 0 ≤ i < MAX_BOXES_TO_OPEN ∧ follow boxes 2 i = Some 0)
      as <-.
    { unfold among_first. cbn [follow]. split.
      - intros (i & box & Hi & Hbox & Hv). exists i. split; [done|].
        rewrite Hbox. cbn [mbind option_bind]. rewrite Hv. done.
      - intros (i & Hi & Hf). exists i.
        destruct (read boxes i) as [box|]; [|done].
        cbn [mbind option_bind] in Hf.
        destruct (read boxes box) as [v|] eqn:Hv; [|done].
        cbn [mbind option_bind] in Hf. injection Hf as ->.
        by exists box. }
    split.
    + intros (r' & Hrun' & Hlt). rewrite Hrun in Hrun'.
      injection Hrun' as <-. rewrite <- Horder at 1. apply (Hall 0). lia.
    + intros Hfound. exists r. split; [done|].
      destruct (decide (r = 0)) as [->|]; [|lia].
      exfalso. apply Hstop; [lia|]. by rewrite Horder.
Qed.

(** X20. The smallest groups.  A single prisoner may open [1/2 = 0]
    boxes: no strategy opens a box, and no trial is counted as won.  With
    no prisoner at all both counters of [Run] are incremented in every
    trial. *)
Theorem smallest_groups (it won : Z) (boxes arr : list Z) :
  0 ≤ NUM_PRISONERS ≤ 1 →
  Run_trial it won boxes arr
  = (if decide (NUM_PRISONERS = 0)
     then arr ← incr arr (won + 0);
          arr ← incr arr (won + 1);
          Some (RandomiseBoxes boxes it, arr)
     else Some (RandomiseBoxes boxes it, arr))
  ∧ (NUM_PRISONERS = 1 →
     ∀ succeed seed buf,
       RunRandom succeed seed buf = Some (succeed, buf)
       ∧ RunMethod succeed buf = Some (succeed, buf)).
Proof.
  intros HP.
  assert (NUM_PRISONERS = 0 ∨ NUM_PRISONERS = 1) as [Hnone|Hone] by lia.
  - split; [|lia]. rewrite decide_True by done.
    unfold Run_trial, call_on, RunRandom, RunMethod. rewrite Hnone.
    change (Z.to_nat 0) with 0%nat. reflexivity.
  - assert (∀ succeed seed buf,
              RunRandom succeed seed buf = Some (succeed, buf)
              ∧ RunMethod succeed buf = Some (succeed, buf)) as Hrun.
    { intros succeed seed buf.
      unfold RunRandom, RunMethod, RunRandom_prisoner, RunMethod_prisoner,
        MAX_BOXES_TO_OPEN. rewrite Hone.
      change (Z.to_nat 1) with 1%nat. change (Z.to_nat (1 / 2)) with 0%nat.
      cbn [RunRandom_loop RunMethod_loop].
      unfold RunRandom_prisoner, RunMethod_prisoner, MAX_BOXES_TO_OPEN.
      rewrite Hone. change (Z.to_nat (1 / 2)) with 0%nat.
      destruct (shuffle _ _) as [order rng]. done. }
    split; [|done]. rewrite decide_False by lia.
    unfold Run_trial, call_on.
    rewrite (proj1 (Hrun 0 it (RandomiseBoxes boxes it, []))).
    cbn [mbind option_bind].
    rewrite (proj2 (Hrun 0 it (RandomiseBoxes boxes it, []))).
    cbn [mbind option_bind]. rewrite decide_False by lia.
    cbn [mbind option_bind]. by rewrite decide_False by lia.
Qed.
End RunRandom_results.

Lemma RunRandom_first_failure_witness :
  ∃ r,
    call_on (@RunRandom four_prisoners lcg_random 0 7) [1; 0; 3; 2]
    = Some (r, [1; 0; 3; 2])
    ∧ 0 ≤ r ≤ 4
    ∧ (∀ p, 0 ≤ p < r →
         among_first (4 / 2) (@search_order_of four_prisoners lcg_random 7 p)
           [1; 0; 3; 2] p)
    ∧ (r < 4 →
         ¬ among_first (4 / 2)
             (@search_order_of four_prisoners lcg_random 7 r)
             [1; 0; 3; 2] r)
    ∧ (r = 4
       ↔ ∀ p, 0 ≤ p < 4 →
           among_first (4 / 2)
             (@search_order_of four_prisoners lcg_random 7 p)
             [1; 0; 3; 2] p).
Proof.
  apply (@RunRandom_first_failure four_prisoners lcg_random lcg_random_spec
           [1; 0; 3; 2] 7).
  - cbv [NUM_PRISONERS four_prisoners]. lia.
  - reflexivity.
Defined.

Lemma RunRandom_reads_in_bounds_witness :
  ∃ r tr,
    @RunRandom four_prisoners lcg_random 0 7 ([9; 9; 9; 9], [])
    = Some (r, ([9; 9; 9; 9], [] ++ tr))
    ∧ Forall (λ pos, 0 ≤ pos < 4) tr.
Proof.
  apply (@RunRandom_reads_in_bounds four_prisoners lcg_random lcg_random_spec
           [9; 9; 9; 9]).
  - cbv [NUM_PRISONERS four_prisoners]. lia.
  - reflexivity.
Defined.

Lemma RunRandom_adds_to_counter_witness :
  ∃ r,
    call_on (@RunRandom four_prisoners lcg_random 0 7) [1; 0; 3; 2]
    = Some (r, [1; 0; 3; 2])
    ∧ call_on (@RunRandom four_prisoners lcg_random 4294967295 7) [1; 0; 3; 2]
      = Some (uint32 (4294967295 + r), [1; 0; 3; 2]).
Proof.
  apply (@RunRandom_adds_to_counter four_prisoners lcg_random lcg_random_spec
           [1; 0; 3; 2] 7 4294967295).
  - cbv [NUM_PRISONERS four_prisoners]. lia.
  - reflexivity.
  - lia.
Defined.

Lemma first_trial_search_order_witness :
  ∃ boxes,
    @trial_boxes four_prisoners lcg_random 5 5 = Some boxes
    ∧ @search_order_of four_prisoners lcg_random 5 0 = boxes
    ∧ (@counted_random four_prisoners lcg_random 5 boxes 0
       ↔ ∃ i, 0 ≤ i < 4 / 2 ∧ follow boxes 2 i = Some 0).
Proof.
  apply (@first_trial_search_order four_prisoners lcg_random lcg_random_spec 5).
  cbv [NUM_PRISONERS four_prisoners]. lia.
Defined.

Lemma smallest_groups_witness :
  @Run_trial one_prisoner lcg_random 3 0 [0] [5; 6] = Some ([0], [5; 6]).
Proof.
  refine (proj1 (@smallest_groups one_prisoner lcg_random 3 0 [0] [5; 6] _)).
  cbv [NUM_PRISONERS one_prisoner]. lia.
Defined.
